(** * Verification of [docker-swarm/src/utils.py]

    The module holds two helpers:

    - [extract_tag_content]: the text between the last non-empty
      [<tag>...</tag>] pair of a model response, with missing markers
      added at the string boundaries;
    - [deserialize]: JSON text to a validated pydantic model, printing and
      re-raising the validation error.

    Python [str] is embedded as [string]; [re.findall] as a backtracking
    matcher over the fragment of the pattern language that the only
    pattern of the module, [<tag>(.*?)</tag>], lives in; [print] and
    [raise] as a state and error monad over the text printed so far.
    pydantic is not part of the repository: its validation is modelled
    from the specification. *)

From Equations Require Import Equations.
From Stdlib Require Import String Ascii List Bool Arith Lia ZArith NArith DecimalString.
Import ListNotations.
Set Warnings "-register-all".

Local Open Scope list_scope.
Local Open Scope string_scope.

(** ** Python [str] operations used by the module *)

Module Str.

(** [s.startswith(p)]. *)
Fixpoint startswith (p s : string) : bool :=
  match p, s with
  | EmptyString, _ => true
  | String _ _, EmptyString => false
  | String a p', String b s' => Ascii.eqb a b && startswith p' s'
  end.

(** [sub in s]: [sub] occurs at some position of [s]. *)
Fixpoint contains (sub s : string) : bool :=
  startswith sub s ||
  match s with
  | EmptyString => false
  | String _ s' => contains sub s'
  end.

(** Truth value of a [str]: non-empty. *)
Definition truthy (s : string) : bool :=
  match s with
  | EmptyString => false
  | String _ _ => true
  end.

(** [xs[-1] if xs else None]. *)
Fixpoint last_or_none (xs : list string) : option string :=
  match xs with
  | [] => None
  | [x] => Some x
  | _ :: xs' => last_or_none xs'
  end.

End Str.

(** ** The fragment of [re] the module uses *)

Module Re.

(** A pattern of the fragment is a sequence of literal characters and
    lazy capturing groups [(.*?)]. *)
Inductive node : Type :=
| Lit (c : ascii)
| LazyAny.

Definition regex : Type := list node.

(** The characters [re] gives a meaning of their own. *)
Definition special (c : ascii) : bool :=
  existsb (Ascii.eqb c)
    ["."; "^"; "$"; "*"; "+"; "?"; "{"; "}"; "["; "]"; "\"; "|"; "("; ")"]%char.

(** Reading a pattern text.  [(.*?)] is the one construct read; any other
    use of a special character is outside the fragment. *)
Fixpoint parse (pat : string) : option regex :=
  match pat with
  | EmptyString => Some []
  | String c rest =>
      if Ascii.eqb c "("%char then
        match rest with
        | String c1 (String c2 (String c3 (String c4 rest'))) =>
            if Ascii.eqb c1 "."%char && Ascii.eqb c2 "*"%char
               && Ascii.eqb c3 "?"%char && Ascii.eqb c4 ")"%char
            then option_map (cons LazyAny) (parse rest')
            else None
        | _ => None
        end
      else if special c then None
      else option_map (cons (Lit c)) (parse rest)
  end.

Definition is_group (n : node) : bool :=
  match n with LazyAny => true | Lit _ => false end.

Definition groups (r : regex) : nat := length (filter is_group r).

Definition has_literal (r : regex) : bool := existsb (fun n => negb (is_group n)) r.

(** [re.compile]: [None] stands for a pattern outside the fragment (among
    them the patterns [re] itself refuses).  The fragment keeps the
    patterns with exactly one group, for which [findall] returns the
    group's text, and with a literal, so that no match is empty. *)
Definition compile (pat : string) : option regex :=
  match parse pat with
  | Some r => if Nat.eqb (groups r) 1 && has_literal r then Some r else None
  | None => None
  end.

(** [.]: any character, a newline only under [re.DOTALL]. *)
Definition dot (dotall : bool) (c : ascii) : bool :=
  dotall || negb (Ascii.eqb c "010"%char).

(** Backtracking match of [r] at the start of [s]: the text captured by
    the group and what is left of [s] after the match.  A lazy group
    first tries to stop, then takes one more character. *)
Fixpoint match_here (dotall : bool) (r : regex) (s : string) {struct r}
  : option (string * string) :=
  match r with
  | [] => Some ("", s)
  | Lit c :: r' =>
      match s with
      | String d s' => if Ascii.eqb c d then match_here dotall r' s' else None
      | EmptyString => None
      end
  | LazyAny :: r' =>
      (fix lazy (s : string) : option (string * string) :=
         match match_here dotall r' s with
         | Some (_, rest) => Some ("", rest)
         | None =>
             match s with
             | String d s' =>
                 if dot dotall d then
                   match lazy s' with
                   | Some (cap, rest) => Some (String d cap, rest)
                   | None => None
                   end
                 else None
             | EmptyString => None
             end
         end) s
  end.

(** [re.findall]: scan left to right; at each position try a match, and
    after one go on where it ended.  (After an empty match the scan moves
    one character on; compiled patterns have none.) *)
Equations findall (dotall : bool) (r : regex) (s : string) : list string
  by wf (String.length s) lt :=
  findall dotall r EmptyString with match_here dotall r EmptyString := {
    | Some (cap, _) := [cap]
    | None := [] };
  findall dotall r (String c s') with match_here dotall r (String c s') := {
    | Some (cap, rest) with lt_dec (String.length rest) (String.length (String c s')) := {
        | left _ := cap :: findall dotall r rest
        | right _ := cap :: findall dotall r s' }
    | None := findall dotall r s' }.

Definition DOTALL : bool := true.

End Re.

(** ** [extract_tag_content] *)

Definition open_marker (tag : string) : string := "<" ++ tag ++ ">".
Definition close_marker (tag : string) : string := "</" ++ tag ++ ">".
Definition tag_pattern (tag : string) : string :=
  "<" ++ tag ++ ">(.*?)</" ++ tag ++ ">".

(** Lines 38-41: the response with the missing markers added. *)
Definition with_markers (llm_response tag : string) : string :=
  let llm_response :=
    if negb (Str.contains (open_marker tag) llm_response)
    then open_marker tag ++ llm_response else llm_response in
  let llm_response :=
    if negb (Str.contains (close_marker tag) llm_response)
    then llm_response ++ close_marker tag else llm_response in
  llm_response.

(** Lines 46-48: drop the empty matches, keep the last. *)
Definition last_nonempty (matches : list string) : option string :=
  let matches := filter Str.truthy matches in
  Str.last_or_none matches.

(** The outer [option] is [None] when the pattern built from [tag] is
    outside the modelled fragment of [re]; the inner one is Python's
    [Optional[str]]. *)
Definition extract_tag_content (llm_response tag : string) : option (option string) :=
  let llm_response := with_markers llm_response tag in
  let pattern := tag_pattern tag in
  match Re.compile pattern with
  | Some r =>
      let matches := Re.findall Re.DOTALL r llm_response in
      Some (last_nonempty matches)
  | None => None
  end.

(** ** Notions used in the statements on [extract_tag_content] *)

(** The pattern that matches the text [s] itself. *)
Fixpoint lits (s : string) : Re.regex :=
  match s with
  | EmptyString => []
  | String c s' => Re.Lit c :: lits s'
  end.

(** No character of [s] is special to [re]. *)
Fixpoint literal (s : string) : bool :=
  match s with
  | EmptyString => true
  | String c s' => negb (Re.special c) && literal s'
  end.

(** What [tag_pattern tag] compiles to when [tag] is literal. *)
Definition tag_regex (tag : string) : Re.regex :=
  (lits (open_marker tag) ++ Re.LazyAny :: lits (close_marker tag))%list.

(** Occurrences of a character. *)
Fixpoint count (c : ascii) (s : string) : nat :=
  match s with
  | EmptyString => 0
  | String d s' => (if Ascii.eqb d c then 1 else 0) + count c s'
  end.

(** A text made of pairs: before each pair a gap, in each pair a content,
    after the last pair a tail. *)
Fixpoint pairs_text (tag : string) (segs : list (string * string)) (tail : string)
  : string :=
  match segs with
  | [] => tail
  | (gap, content) :: segs' =>
      gap ++ open_marker tag ++ content ++ close_marker tag ++ pairs_text tag segs' tail
  end.

(** [sub] occurs in [s] right after [before], and nowhere earlier. *)
Definition first_occurrence (sub s before after : string) : Prop :=
  s = before ++ sub ++ after /\
  forall a b, s = a ++ sub ++ b -> String.length before <= String.length a.

(** ** JSON documents *)

(** Modelled from the spec: the JSON reader inside pydantic's
    [model_validate_json], which the specification names as "parse [value]
    as JSON"; the grammar is that of RFC 8259. *)
Module Json.

(** A JSON number, exactly: an integer literal, or [mantissa * 10^exponent]
    for a literal with a fraction or an exponent. *)
Inductive number : Type :=
| NInt (z : Z)
| NDec (mantissa exponent : Z).

Inductive value : Type :=
| JNull
| JBool (b : bool)
| JNumber (n : number)
| JString (s : string)
| JArray (items : list value)
| JObject (members : list (string * value)).

Inductive token : Type :=
| TLBrace | TRBrace | TLBracket | TRBracket | TColon | TComma
| TAtom (v : value).

(** *** Lexer *)

Definition code (c : ascii) : N := N_of_ascii c.

Definition is_space (c : ascii) : bool :=
  existsb (N.eqb (code c)) [32; 9; 10; 13]%N.

Definition is_digit (c : ascii) : bool := (48 <=? code c)%N && (code c <=? 57)%N.

Definition digit_val (c : ascii) : N := (code c - 48)%N.

Definition hex_val (c : ascii) : option N :=
  let n := code c in
  if is_digit c then Some (n - 48)%N
  else if (65 <=? n)%N && (n <=? 70)%N then Some (n - 55)%N
  else if (97 <=? n)%N && (n <=? 102)%N then Some (n - 87)%N
  else None.

Definition structural (c : ascii) : option token :=
  if Ascii.eqb c "{" then Some TLBrace
  else if Ascii.eqb c "}" then Some TRBrace
  else if Ascii.eqb c "[" then Some TLBracket
  else if Ascii.eqb c "]" then Some TRBracket
  else if Ascii.eqb c ":" then Some TColon
  else if Ascii.eqb c "," then Some TComma
  else None.

Definition is_structural (c : ascii) : bool :=
  match structural c with Some _ => true | None => false end.

Fixpoint span (p : ascii -> bool) (cs : list ascii) : list ascii * list ascii :=
  match cs with
  | c :: cs' =>
      if p c then let (a, b) := span p cs' in (c :: a, b) else ([], cs)
  | [] => ([], [])
  end.

Definition digits_val (ds : list ascii) : N :=
  fold_left (fun acc d => (10 * acc + digit_val d)%N) ds 0%N.

Definition signed (neg : bool) (n : N) : Z :=
  if neg then Z.opp (Z.of_N n) else Z.of_N n.

(** The number grammar of JSON: an optional minus sign; an integer part
    without leading zero; optionally a dot and digits; optionally an
    exponent mark, a sign and digits. *)
Definition number_of (cs : list ascii) : option number :=
  let (neg, cs) := match cs with
                   | c :: r => if Ascii.eqb c "-" then (true, r) else (false, cs)
                   | [] => (false, cs)
                   end in
  let (ip, cs) := span is_digit cs in
  let int_ok := match ip with
                | [] => false
                | [_] => true
                | c :: _ => negb (Ascii.eqb c "0")
                end in
  if negb int_ok then None else
  let frac := match cs with
              | c :: r =>
                  if Ascii.eqb c "." then
                    let (fp, r') := span is_digit r in
                    match fp with [] => None | _ => Some (Some fp, r') end
                  else Some (None, cs)
              | [] => Some (None, cs)
              end in
  match frac with
  | None => None
  | Some (fp, cs) =>
      let expo := match cs with
                  | [] => Some None
                  | c :: r =>
                      if Ascii.eqb c "e" || Ascii.eqb c "E" then
                        let (eneg, r) :=
                          match r with
                          | s :: r' =>
                              if Ascii.eqb s "-" then (true, r')
                              else if Ascii.eqb s "+" then (false, r')
                              else (false, r)
                          | [] => (false, r)
                          end in
                        match span is_digit r with
                        | (d :: ds, []) => Some (Some (signed eneg (digits_val (d :: ds))))
                        | _ => None
                        end
                      else None
                  end in
      match expo, fp with
      | None, _ => None
      | Some None, None => Some (NInt (signed neg (digits_val ip)))
      | Some e, _ =>
          let fp := match fp with Some d => d | None => [] end in
          let e := match e with Some z => z | None => 0%Z end in
          Some (NDec (signed neg (digits_val (ip ++ fp))) (e - Z.of_nat (length fp)))
      end
  end.

(** A bare word: a literal name or a number. *)
Definition atom_of (cs : list ascii) : option token :=
  let w := string_of_list_ascii cs in
  if String.eqb w "true" then Some (TAtom (JBool true))
  else if String.eqb w "false" then Some (TAtom (JBool false))
  else if String.eqb w "null" then Some (TAtom JNull)
  else option_map (fun n => TAtom (JNumber n)) (number_of cs).

Definition byte (n : N) : ascii := ascii_of_N n.

(** UTF-8 bytes of a code point. *)
Definition utf8 (cp : N) : list ascii :=
  (if cp <? 128 then [byte cp]
   else if cp <? 2048 then [byte (192 + cp / 64); byte (128 + cp mod 64)]
   else if cp <? 65536 then
     [byte (224 + cp / 4096); byte (128 + (cp / 64) mod 64); byte (128 + cp mod 64)]
   else
     [byte (240 + cp / 262144); byte (128 + (cp / 4096) mod 64);
      byte (128 + (cp / 64) mod 64); byte (128 + cp mod 64)])%N.

(** The lexer reads one character at a time.  [acc] is the text of the
    string or word read so far, last character first; [high] a leading
    surrogate that waits for its trailing one. *)
Inductive mode : Type :=
| MDefault
| MWord (acc : list ascii)
| MString (acc : list ascii) (high : option N)
| MEscape (acc : list ascii) (high : option N)
| MUnicode (acc : list ascii) (high : option N) (digits : list N).

Definition start (c : ascii) : option (list token * mode) :=
  if is_space c then Some ([], MDefault)
  else match structural c with
       | Some t => Some ([t], MDefault)
       | None =>
           if Ascii.eqb c "034" then Some ([], MString [] None)
           else Some ([], MWord [c])
       end.

Definition simple_escape (c : ascii) : option ascii :=
  if Ascii.eqb c "034" then Some "034"%char
  else if Ascii.eqb c "\" then Some "\"%char
  else if Ascii.eqb c "/" then Some "/"%char
  else if Ascii.eqb c "b" then Some (byte 8)
  else if Ascii.eqb c "f" then Some (byte 12)
  else if Ascii.eqb c "n" then Some (byte 10)
  else if Ascii.eqb c "r" then Some (byte 13)
  else if Ascii.eqb c "t" then Some (byte 9)
  else None.

Definition code_unit (acc : list ascii) (high : option N) (u : N) : option mode :=
  let is_high := (55296 <=? u)%N && (u <=? 56319)%N in
  let is_low := (56320 <=? u)%N && (u <=? 57343)%N in
  match high with
  | Some h =>
      if is_low
      then Some (MString (rev (utf8 (65536 + (h - 55296) * 1024 + (u - 56320))%N) ++ acc)%list None)
      else None
  | None =>
      if is_high then Some (MString acc (Some u))
      else if is_low then None
      else Some (MString (rev (utf8 u) ++ acc)%list None)
  end.

Definition step (m : mode) (c : ascii) : option (list token * mode) :=
  match m with
  | MDefault => start c
  | MWord acc =>
      if is_space c || is_structural c || Ascii.eqb c "034"
      then match atom_of (rev acc), start c with
           | Some t, Some (ts, m') => Some (t :: ts, m')
           | _, _ => None
           end
      else Some ([], MWord (c :: acc))
  | MString acc high =>
      if Ascii.eqb c "\" then Some ([], MEscape acc high)
      else match high with
           | Some _ => None
           | None =>
               if Ascii.eqb c "034"
               then Some ([TAtom (JString (string_of_list_ascii (rev acc)))], MDefault)
               else if (code c <? 32)%N then None
               else Some ([], MString (c :: acc) None)
           end
  | MEscape acc high =>
      if Ascii.eqb c "u" then Some ([], MUnicode acc high [])
      else match high, simple_escape c with
           | None, Some e => Some ([], MString (e :: acc) None)
           | _, _ => None
           end
  | MUnicode acc high ds =>
      match hex_val c with
      | None => None
      | Some d =>
          match ds with
          | [d2; d1; d0] =>
              option_map (fun m' => ([], m'))
                (code_unit acc high (((d0 * 16 + d1) * 16 + d2) * 16 + d)%N)
          | _ => Some ([], MUnicode acc high (d :: ds))
          end
      end
  end.

Definition finish (m : mode) : option (list token) :=
  match m with
  | MDefault => Some []
  | MWord acc => option_map (fun t => [t]) (atom_of (rev acc))
  | _ => None
  end.

Fixpoint lex_from (m : mode) (s : string) : option (list token) :=
  match s with
  | EmptyString => finish m
  | String c s' =>
      match step m c with
      | Some (ts, m') => option_map (app ts) (lex_from m' s')
      | None => None
      end
  end.

Definition lex (s : string) : option (list token) := lex_from MDefault s.

(** *** Parser: a stack of the arrays and objects that are still open *)

Inductive frame : Type :=
| InArray (done : list value)
| InObject (done : list (string * value)) (key : string).

Inductive state : Type :=
| SValue (may_close : bool) (stack : list frame)
| SKey (may_close : bool) (done : list (string * value)) (stack : list frame)
| SColon (done : list (string * value)) (key : string) (stack : list frame)
| SArrayNext (done : list value) (stack : list frame)
| SObjectNext (done : list (string * value)) (stack : list frame)
| SDone (v : value).

(** A finished value goes to the innermost open container. *)
Definition deliver (v : value) (stack : list frame) : state :=
  match stack with
  | [] => SDone v
  | InArray done :: stack' => SArrayNext (v :: done) stack'
  | InObject done key :: stack' => SObjectNext ((key, v) :: done) stack'
  end.

Definition parse_step (st : state) (t : token) : option state :=
  match st, t with
  | SValue _ stack, TAtom v => Some (deliver v stack)
  | SValue _ stack, TLBracket => Some (SValue true (InArray [] :: stack))
  | SValue _ stack, TLBrace => Some (SKey true [] stack)
  | SValue true (InArray [] :: stack), TRBracket => Some (deliver (JArray []) stack)
  | SKey _ done stack, TAtom (JString k) => Some (SColon done k stack)
  | SKey true _ stack, TRBrace => Some (deliver (JObject []) stack)
  | SColon done k stack, TColon => Some (SValue false (InObject done k :: stack))
  | SArrayNext done stack, TComma => Some (SValue false (InArray done :: stack))
  | SArrayNext done stack, TRBracket => Some (deliver (JArray (rev done)) stack)
  | SObjectNext done stack, TComma => Some (SKey false done stack)
  | SObjectNext done stack, TRBrace => Some (deliver (JObject (rev done)) stack)
  | _, _ => None
  end.

Fixpoint parse_from (st : state) (ts : list token) : option value :=
  match ts with
  | [] => match st with SDone v => Some v | _ => None end
  | t :: ts' =>
      match parse_step st t with
      | Some st' => parse_from st' ts'
      | None => None
      end
  end.

(** Modelled from the spec: "parse [value] as JSON", the reader that
    pydantic's [model_validate_json] runs first; [None] when the text is not
    a JSON document. *)
Definition loads (s : string) : option value :=
  match lex s with
  | Some ts => parse_from (SValue false []) ts
  | None => None
  end.

End Json.

(** ** pydantic models *)

(** Modelled from the spec: pydantic's validation of a parsed document
    against a model class, "required fields present, types conform, nested
    objects recursively validated", and its [ValidationError]. *)
Module Pydantic.
Import Json.

(** A field type; a model type carries its class name and its fields:
    name, required or not, type. *)
Inductive ftype : Type :=
| TInt
| TFloat
| TStr
| TBool
| TList (elem : ftype)
| TModel (name : string) (fields : list (string * (bool * ftype))).

(** A validated value; [VModel] is a model instance with its attributes. *)
Inductive pyvalue : Type :=
| VNone
| VBool (b : bool)
| VInt (z : Z)
| VFloat (mantissa exponent : Z)
| VStr (s : string)
| VList (items : list pyvalue)
| VModel (name : string) (attrs : list (string * pyvalue)).

(** What can be wrong, and where: [loc] is the path of field names and list
    indices to the offending value. *)
Inductive error_type : Type :=
| json_invalid | missing | int_type | float_type | string_type | bool_type
| list_type | model_type.

Record error_detail : Type := { loc : list string; type : error_type }.

(** Modelled from the spec: pydantic's [ValidationError], "the single error
    kind covering malformed input or schema non-conformance"; it names the
    model and lists what failed, and where. *)
Record ValidationError : Type := { title : string; errors : list error_detail }.

(** The errors found, or the validated value. *)
Definition result (A : Type) : Type := (list error_detail + A)%type.

Definition fail {A : Type} (loc : list string) (t : error_type) : result A :=
  inl [{| loc := loc; type := t |}].

(** Both results, or the errors of both. *)
Definition cons_result {A : Type} (r : result A) (rs : result (list A))
  : result (list A) :=
  match r, rs with
  | inr a, inr l => inr (a :: l)
  | inl e, inr _ => inl e
  | inr _, inl e => inl e
  | inl e1, inl e2 => inl (e1 ++ e2)%list
  end.

(** The value of a key in a JSON object; of a repeated key, the last. *)
Fixpoint lookup (k : string) (members : list (string * value)) : option value :=
  match members with
  | [] => None
  | (k', v) :: rest =>
      match lookup k rest with
      | Some v' => Some v'
      | None => if String.eqb k k' then Some v else None
      end
  end.

(** A list index, in decimal. *)
Definition index (i : nat) : string := NilZero.string_of_uint (Nat.to_uint i).

(** The items of an array, each validated by [f] at its index. *)
Fixpoint validate_items (f : list string -> value -> result pyvalue)
  (loc : list string) (i : nat) (items : list value) : result (list pyvalue) :=
  match items with
  | [] => inr []
  | x :: xs => cons_result (f (loc ++ [index i])%list x) (validate_items f loc (S i) xs)
  end.

(** One attribute per field: the validated value of the member with the
    field's name; without such a member, an error for a required field
    and [None] for an optional one. *)
Fixpoint validate_fields (f : ftype -> list string -> value -> result pyvalue)
  (loc : list string) (members : list (string * value))
  (fields : list (string * (bool * ftype))) : result (list (string * pyvalue)) :=
  match fields with
  | [] => inr []
  | (fname, (required, ty)) :: rest =>
      cons_result
        match lookup fname members with
        | Some jv =>
            match f ty (loc ++ [fname])%list jv with
            | inr v => inr (fname, v)
            | inl e => inl e
            end
        | None =>
            if required then fail (loc ++ [fname])%list missing
            else inr (fname, VNone)
        end
        (validate_fields f loc members rest)
  end.

(** Modelled from the spec: "validate it against [schema]'s field
    definitions (required fields present, types conform, nested objects
    recursively validated)"; what pydantic does beyond that (coercions,
    defaults, validators of the user) is not modelled. *)
Fixpoint validate (t : ftype) (loc : list string) (j : value) {struct t}
  : result pyvalue :=
  match t with
  | TInt => match j with JNumber (NInt z) => inr (VInt z) | _ => fail loc int_type end
  | TFloat =>
      match j with
      | JNumber (NInt z) => inr (VFloat z 0)
      | JNumber (NDec m e) => inr (VFloat m e)
      | _ => fail loc float_type
      end
  | TStr => match j with JString s => inr (VStr s) | _ => fail loc string_type end
  | TBool => match j with JBool b => inr (VBool b) | _ => fail loc bool_type end
  | TList elem =>
      match j with
      | JArray items =>
          match validate_items (validate elem) loc 0 items with
          | inr vs => inr (VList vs)
          | inl e => inl e
          end
      | _ => fail loc list_type
      end
  | TModel name fields =>
      match j with
      | JObject members =>
          match validate_fields validate loc members fields with
          | inr attrs => inr (VModel name attrs)
          | inl e => inl e
          end
      | _ => fail loc model_type
      end
  end.

(** A model class: its name and fields. *)
Record schema : Type := { model_name : string; model_fields : list (string * (bool * ftype)) }.

Definition model_type_of (s : schema) : ftype := TModel (model_name s) (model_fields s).

(** Modelled from the spec: pydantic's [Model.model_validate_json], for the
    model class with the schema [s]: the instance, or the
    [ValidationError] raised. *)
Definition schema_validate_json (s : schema) (json_data : string)
  : ValidationError + pyvalue :=
  match loads json_data with
  | None => inl {| title := model_name s; errors := [{| loc := []; type := json_invalid |}] |}
  | Some j =>
      match validate (model_type_of s) [] j with
      | inr v => inr v
      | inl e => inl {| title := model_name s; errors := e |}
      end
  end.

Definition error_type_name (t : error_type) : string :=
  match t with
  | json_invalid => "json_invalid" | missing => "missing" | int_type => "int_type"
  | float_type => "float_type" | string_type => "string_type" | bool_type => "bool_type"
  | list_type => "list_type" | model_type => "model_type"
  end.

Definition newline : string := String "010" "".

Definition str_detail (e : error_detail) : string :=
  newline ++ String.concat "." (loc e) ++ newline ++ "  [type=" ++ error_type_name (type e) ++ "]".

(** Modelled from the spec: [str(err)], a text "naming the error": the
    count of errors, the model, then each error. *)
Definition str (err : ValidationError) : string :=
  index (length (errors err)) ++ " validation error" ++
  (if Nat.eqb (length (errors err)) 1 then "" else "s") ++ " for " ++ title err ++
  String.concat "" (map str_detail (errors err)).

(** [obj.name]. *)
Fixpoint getattr (attrs : list (string * pyvalue)) (name : string) : option pyvalue :=
  match attrs with
  | [] => None
  | (k, v) :: rest => if String.eqb k name then Some v else getattr rest name
  end.

(** *** Conformance, stated apart from the validator *)

(** The members of the object satisfy the fields: a member with the
    field's name conforms to the field's type; a field without such a
    member is optional. *)
Fixpoint fields_conform (P : ftype -> value -> Prop)
  (members : list (string * value)) (fields : list (string * (bool * ftype))) : Prop :=
  match fields with
  | [] => True
  | (fname, (required, ty)) :: rest =>
      match lookup fname members with
      | Some jv => P ty jv
      | None => required = false
      end /\ fields_conform P members rest
  end.

Fixpoint conforms (t : ftype) (j : value) {struct t} : Prop :=
  match t with
  | TInt => exists z, j = JNumber (NInt z)
  | TFloat => exists n, j = JNumber n
  | TStr => exists s, j = JString s
  | TBool => exists b, j = JBool b
  | TList elem => exists items, j = JArray items /\ Forall (conforms elem) items
  | TModel _ fields =>
      exists members, j = JObject members /\ fields_conform conforms members fields
  end.

(** The attributes are those of the fields, in order; each has the type
    of its field, or is [None] for an optional field. *)
Fixpoint attrs_typed (Q : ftype -> pyvalue -> Prop)
  (fields : list (string * (bool * ftype))) (attrs : list (string * pyvalue)) : Prop :=
  match fields, attrs with
  | [], [] => True
  | (fname, (required, ty)) :: rest, (k, v) :: attrs' =>
      k = fname /\ (Q ty v \/ (required = false /\ v = VNone)) /\ attrs_typed Q rest attrs'
  | _, _ => False
  end.

Fixpoint has_type (t : ftype) (v : pyvalue) {struct t} : Prop :=
  match t with
  | TInt => exists z, v = VInt z
  | TFloat => exists m e, v = VFloat m e
  | TStr => exists s, v = VStr s
  | TBool => exists b, v = VBool b
  | TList elem => exists vs, v = VList vs /\ Forall (has_type elem) vs
  | TModel name fields =>
      exists attrs, v = VModel name attrs /\ attrs_typed has_type fields attrs
  end.

(** Induction on field types, with the hypothesis for each field of a
    model. *)
Section ftype_induction.
Variable P : ftype -> Prop.
Hypothesis HInt : P TInt.
Hypothesis HFloat : P TFloat.
Hypothesis HStr : P TStr.
Hypothesis HBool : P TBool.
Hypothesis HList : forall elem, P elem -> P (TList elem).
Hypothesis HModel : forall name fields,
    Forall (fun f => P (snd (snd f))) fields -> P (TModel name fields).

Fixpoint ftype_nested_ind (t : ftype) : P t :=
  match t with
  | TInt => HInt
  | TFloat => HFloat
  | TStr => HStr
  | TBool => HBool
  | TList elem => HList elem (ftype_nested_ind elem)
  | TModel name fields =>
      HModel name fields
        ((fix all (fs : list (string * (bool * ftype)))
            : Forall (fun f => P (snd (snd f))) fs :=
            match fs with
            | [] => Forall_nil _
            | (n, (r, ty)) :: fs' =>
                Forall_cons (n, (r, ty)) (ftype_nested_ind ty) (all fs')
            end) fields)
  end.
End ftype_induction.

(** What a validator [f] of one type must do for [P] and [Q]. *)
Definition decides (f : list string -> value -> result pyvalue)
  (P : value -> Prop) (Q : pyvalue -> Prop) : Prop :=
  forall loc j,
    (P j -> exists v, f loc j = inr v) /\
    (forall v, f loc j = inr v -> P j /\ Q v).

End Pydantic.

(** ** Python effects: printing and raising *)

Module Py.

(** The text printed so far. *)
Definition stdout : Type := string.

Inductive outcome (A : Type) : Type :=
| Return (a : A)
| Raise (err : Pydantic.ValidationError).
Arguments Return {A} a.
Arguments Raise {A} err.

(** A computation: from the text printed so far to an outcome and the text
    printed after it. *)
Definition M (A : Type) : Type := stdout -> outcome A * stdout.

Definition ret {A : Type} (a : A) : M A := fun out => (Return a, out).

Definition raise {A : Type} (err : Pydantic.ValidationError) : M A :=
  fun out => (Raise err, out).

Definition bind {A B : Type} (m : M A) (k : A -> M B) : M B :=
  fun out =>
    match m out with
    | (Return a, out') => k a out'
    | (Raise err, out') => (Raise err, out')
    end.

(** [print(s)]. *)
Definition print (s : string) : M unit :=
  fun out => (Return tt, out ++ s ++ Pydantic.newline).

(** [try: m  except ValidationError as err: handler err]. *)
Definition try_except {A : Type} (m : M A) (handler : Pydantic.ValidationError -> M A)
  : M A :=
  fun out =>
    match m out with
    | (Raise err, out') => handler err out'
    | (Return a, out') => (Return a, out')
    end.

(** A call that prints nothing. *)
Definition call {A : Type} (r : Pydantic.ValidationError + A) : M A :=
  match r with
  | inl err => raise err
  | inr a => ret a
  end.

End Py.

Notation "x <- m ;; k" := (Py.bind m (fun x => k))
  (at level 61, m at next level, right associativity).
Notation "m ;; k" := (Py.bind m (fun _ => k))
  (at level 61, right associativity).

(** A subclass of [BaseModel], with instances of type [I]: its class method
    [model_validate_json], which by pydantic's contract returns an instance
    or raises [ValidationError], and depends on its argument alone. *)
Record BaseModel (I : Type) : Type :=
  { model_validate_json : string -> Pydantic.ValidationError + I }.
Arguments model_validate_json {I} _ _.

(** The model class of a schema. *)
Definition model_of (s : Pydantic.schema) : BaseModel Pydantic.pyvalue :=
  {| model_validate_json := Pydantic.schema_validate_json s |}.

(** Lines 13-20.  The call either returns the instance or raises the
    [ValidationError] that the [except] clause names; the handler prints
    the line and raises the error it caught. *)
Definition deserialize {I : Type} (value : string) (object_type : BaseModel I) : Py.M I :=
  parsed_object <-
    Py.try_except
      (Py.call (model_validate_json object_type value))
      (fun err =>
         Py.print ("Validation error: " ++ Pydantic.str err) ;;
         Py.raise err) ;;
  Py.ret parsed_object.

(** ** Notions used in the statements *)

(** [value] is a JSON document that conforms to the schema [s]. *)
Definition valid_for (s : Pydantic.schema) (value : string) : Prop :=
  exists j, Json.loads value = Some j /\ Pydantic.conforms (Pydantic.model_type_of s) j.

(** [value] is not valid JSON, or its document fails validation against
    the schema [s]. *)
Definition invalid_for (s : Pydantic.schema) (value : string) : Prop :=
  Json.loads value = None \/
  exists j, Json.loads value = Some j /\ ~ Pydantic.conforms (Pydantic.model_type_of s) j.

(** The double quote, and the sample inputs of the specification:
    a schema with the required integer field [a], and [{"a": 1}]. *)
Definition dq : string := String "034" "".

Definition model_a : Pydantic.schema :=
  {| Pydantic.model_name := "A"; Pydantic.model_fields := [("a", (true, Pydantic.TInt))] |}.

Definition json_a_1 : string := "{" ++ dq ++ "a" ++ dq ++ ": 1}".

(** Checks, position by position, that a closed text starts no copy of
    the marker before the one claimed to be the first. *)
Ltac no_earlier_copy :=
  let a := fresh "a" in let b := fresh "b" in let E := fresh "E" in
  intros a b E;
  repeat (destruct a as [|? a];
          [simpl in E; discriminate E | simpl in E; injection E as _ E]);
  simpl; lia.

(** * Facts *)

(** ** Facts on strings *)

Section StrFacts.

Lemma sapp_nil_r (s : string) : s ++ "" = s.
Proof. induction s as [|c s IH]; simpl; [reflexivity | now rewrite IH]. Qed.

Lemma sapp_assoc (a b c : string) : (a ++ b) ++ c = a ++ (b ++ c).
Proof. induction a as [|x a IH]; simpl; [reflexivity | now rewrite IH]. Qed.

Lemma slength_app (a b : string) :
  String.length (a ++ b) = String.length a + String.length b.
Proof. induction a as [|x a IH]; simpl; [reflexivity | now rewrite IH]. Qed.

Lemma sapp_inv_head (a b c : string) : a ++ b = a ++ c -> b = c.
Proof. induction a as [|x a IH]; simpl; intros H; [assumption|]. injection H as H. auto. Qed.

(** Two ways of cutting one string: one cut lies before the other. *)
Lemma sapp_eq_app (a b c d : string) :
  a ++ b = c ++ d ->
  (exists u, c = a ++ u /\ b = u ++ d) \/ (exists u, a = c ++ u /\ d = u ++ b).
Proof.
  revert c. induction a as [|x a IH]; intros c H.
  - left. exists c. auto.
  - destruct c as [|y c].
    + right. exists (String x a). auto.
    + simpl in H. injection H as -> H.
      destruct (IH _ H) as [[u [-> ->]]|[u [-> ->]]]; [left|right]; exists u; auto.
Qed.

Lemma startswith_iff (p s : string) :
  Str.startswith p s = true <-> exists t, s = p ++ t.
Proof.
  revert s. induction p as [|a p IH]; intros s; simpl.
  - split; [exists s; reflexivity | reflexivity].
  - destruct s as [|b s].
    + split; [discriminate | intros [t H]; discriminate].
    + rewrite andb_true_iff, Ascii.eqb_eq, IH. split.
      * intros [-> [t ->]]. exists t. reflexivity.
      * intros [t H]. injection H as -> ->. split; [reflexivity | exists t; reflexivity].
Qed.

(** [sub in s] holds exactly when [s] splits around a copy of [sub]. *)
Lemma contains_iff (sub s : string) :
  Str.contains sub s = true <-> exists a b, s = a ++ sub ++ b.
Proof.
  induction s as [|c s IH]; simpl.
  - rewrite orb_false_r, startswith_iff. split.
    + intros [t H]. exists "", t. assumption.
    + intros [a [b H]]. destruct a; [exists b; assumption | discriminate].
  - rewrite orb_true_iff, startswith_iff, IH. split.
    + intros [[t H]|[a [b H]]].
      * exists "", t. assumption.
      * exists (String c a), b. simpl. now rewrite H.
    + intros [a [b H]]. destruct a as [|x a].
      * left. exists b. assumption.
      * right. simpl in H. injection H as _ H. exists a, b. assumption.
Qed.

Lemma contains_false_iff (sub s : string) :
  Str.contains sub s = false <-> forall a b, s <> a ++ sub ++ b.
Proof.
  rewrite <- not_true_iff_false, contains_iff. split.
  - intros H a b E. apply H. exists a, b. assumption.
  - intros H [a [b E]]. exact (H a b E).
Qed.

Lemma contains_app_r (sub a b : string) :
  Str.contains sub b = true -> Str.contains sub (a ++ b) = true.
Proof.
  rewrite !contains_iff. intros [x [y ->]]. exists (a ++ x), y.
  now rewrite !sapp_assoc.
Qed.

Lemma contains_self (sub a b : string) : Str.contains sub (a ++ sub ++ b) = true.
Proof. apply contains_iff. exists a, b. reflexivity. Qed.

(** A one-character string occurs in a concatenation only inside a part. *)
Lemma contains_char_app (c : ascii) (a b : string) :
  Str.contains (String c "") (a ++ b)
  = Str.contains (String c "") a || Str.contains (String c "") b.
Proof.
  induction a as [|x a IH]; simpl.
  - destruct (Str.contains (String c "") b); reflexivity.
  - rewrite IH, !andb_true_r. destruct (Ascii.eqb c x); reflexivity.
Qed.

End StrFacts.

(** ** Facts on the pattern fragment *)

Section ReFacts.

Lemma special_not_paren (c : ascii) :
  Re.special c = false -> Ascii.eqb c "("%char = false.
Proof.
  destruct (Ascii.eqb_spec c "("%char) as [->|]; [discriminate | reflexivity].
Qed.

Lemma parse_literal_app (a b : string) :
  literal a = true ->
  Re.parse (a ++ b) = option_map (app (lits a)) (Re.parse b).
Proof.
  induction a as [|c a IH]; simpl; intros H.
  - destruct (Re.parse b); reflexivity.
  - apply andb_true_iff in H as [Hc Ha]. apply negb_true_iff in Hc.
    rewrite (special_not_paren _ Hc), Hc, (IH Ha).
    destruct (Re.parse b); reflexivity.
Qed.

Lemma filter_group_lits (a : string) : filter Re.is_group (lits a) = [].
Proof. induction a; simpl; auto. Qed.

Lemma groups_lits (a : string) (r : Re.regex) :
  Re.groups (lits a ++ r)%list = Re.groups r.
Proof. unfold Re.groups. now rewrite filter_app, filter_group_lits. Qed.

Lemma lits_app (a b : string) : lits (a ++ b) = (lits a ++ lits b)%list.
Proof. induction a as [|c a IH]; simpl; [reflexivity | now rewrite IH]. Qed.

Lemma compile_tag_pattern (tag : string) :
  literal tag = true -> Re.compile (tag_pattern tag) = Some (tag_regex tag).
Proof.
  intros H.
  assert (P : Re.parse (tag_pattern tag) = Some (tag_regex tag)).
  { unfold tag_pattern, tag_regex, open_marker, close_marker. simpl.
    rewrite (parse_literal_app tag _ H). simpl.
    rewrite (parse_literal_app tag ">" H). simpl.
    rewrite !lits_app. simpl. rewrite <- List.app_assoc. reflexivity. }
  unfold Re.compile. rewrite P.
  replace (Re.groups (tag_regex tag)) with 1; [reflexivity|].
  unfold tag_regex. rewrite groups_lits. unfold Re.groups. simpl.
  now rewrite filter_group_lits.
Qed.

(** *** The pattern compiles exactly for the literal tags *)

Lemma count_app (c : ascii) (a b : string) :
  count c (a ++ b) = count c a + count c b.
Proof. induction a as [|d a IH]; simpl; [reflexivity | rewrite IH; lia]. Qed.

(** In a pattern of the fragment every [(] opens a group. *)
Lemma parse_groups_count (n : nat) :
  forall s r, String.length s <= n -> Re.parse s = Some r ->
              Re.groups r = count "("%char s.
Proof.
  induction n as [|n IH]; intros s r Hn Hp.
  - destruct s; [|simpl in Hn; lia]. injection Hp as <-. reflexivity.
  - destruct s as [|c s]; [injection Hp as <-; reflexivity|].
    simpl in Hn, Hp. simpl count.
    destruct (Ascii.eqb c "("%char) eqn:Ec.
    + destruct s as [|c1 [|c2 [|c3 [|c4 s]]]]; try discriminate.
      destruct (Ascii.eqb c1 "."%char) eqn:E1; [|discriminate].
      destruct (Ascii.eqb c2 "*"%char) eqn:E2; [|discriminate].
      destruct (Ascii.eqb c3 "?"%char) eqn:E3; [|discriminate].
      destruct (Ascii.eqb c4 ")"%char) eqn:E4; [|discriminate].
      apply Ascii.eqb_eq in E1, E2, E3, E4. subst c1 c2 c3 c4. simpl in Hp |- *.
      destruct (Re.parse s) as [r'|] eqn:Hs; [|discriminate].
      injection Hp as <-. unfold Re.groups. simpl. f_equal.
      apply (IH s r'); [simpl in Hn; lia | assumption].
    + destruct (Re.special c); [discriminate|].
      destruct (Re.parse s) as [r'|] eqn:Hs; [|discriminate].
      injection Hp as <-. unfold Re.groups. simpl.
      apply (IH s r'); [lia | assumption].
Qed.

Lemma parse_prefix_literal (a b : string) (r : Re.regex) :
  Re.parse (a ++ b) = Some r -> count "("%char a = 0 -> literal a = true.
Proof.
  revert r. induction a as [|c a IH]; intros r Hp Hc; [reflexivity|].
  simpl in Hp, Hc |- *.
  destruct (Ascii.eqb c "("%char); [discriminate|].
  destruct (Re.special c); [discriminate|].
  destruct (Re.parse (a ++ b)) as [r'|] eqn:Hs; [|discriminate].
  simpl. apply (IH r'); [reflexivity | assumption].
Qed.

Lemma compile_tag_pattern_inv (tag : string) (r : Re.regex) :
  Re.compile (tag_pattern tag) = Some r -> literal tag = true /\ r = tag_regex tag.
Proof.
  intros H.
  assert (L : literal tag = true).
  { unfold Re.compile in H.
    destruct (Re.parse (tag_pattern tag)) as [r0|] eqn:P; [|discriminate].
    destruct (Nat.eqb (Re.groups r0) 1) eqn:G; [|discriminate].
    apply Nat.eqb_eq in G.
    rewrite (parse_groups_count _ _ _ (le_n _) P) in G.
    unfold tag_pattern in G. rewrite !count_app in G. simpl in G.
    assert (L : literal ("<" ++ tag) = true).
    { apply (parse_prefix_literal ("<" ++ tag) (">(.*?)</" ++ tag ++ ">") r0 P).
      simpl. lia. }
    exact L. }
  split; [assumption|].
  rewrite (compile_tag_pattern _ L) in H. now injection H.
Qed.

(** *** Matching *)

Lemma match_here_lazy (d : bool) (r : Re.regex) (s : string) :
  Re.match_here d (Re.LazyAny :: r) s =
  match Re.match_here d r s with
  | Some (_, rest) => Some ("", rest)
  | None =>
      match s with
      | String c s' =>
          if Re.dot d c then
            match Re.match_here d (Re.LazyAny :: r) s' with
            | Some (cap, rest) => Some (String c cap, rest)
            | None => None
            end
          else None
      | EmptyString => None
      end
  end.
Proof. destruct s; reflexivity. Qed.

Lemma match_lits_app (d : bool) (p : string) (r : Re.regex) (s : string) :
  Re.match_here d (lits p ++ r)%list (p ++ s) = Re.match_here d r s.
Proof.
  induction p as [|c p IH]; simpl; [reflexivity|].
  now rewrite Ascii.eqb_refl.
Qed.

Lemma match_lits_inv (d : bool) (p : string) (r : Re.regex) (s : string) x :
  Re.match_here d (lits p ++ r)%list s = Some x ->
  exists t, s = p ++ t /\ Re.match_here d r t = Some x.
Proof.
  revert s. induction p as [|c p IH]; intros s H.
  - exists s. auto.
  - destruct s as [|e s]; [discriminate|]. simpl in H.
    destruct (Ascii.eqb_spec c e) as [->|]; [|discriminate].
    destruct (IH _ H) as [t [-> Ht]]. exists t. auto.
Qed.

Lemma match_lits_only (d : bool) (p s : string) cap rest :
  Re.match_here d (lits p) s = Some (cap, rest) -> cap = "" /\ s = p ++ rest.
Proof.
  intros H. rewrite <- (List.app_nil_r (lits p)) in H.
  apply match_lits_inv in H as [t [-> Ht]]. simpl in Ht.
  injection Ht as <- <-. auto.
Qed.

End ReFacts.

(** ** First occurrences and the scan *)

Section Scan.

Lemma first_occurrence_exists (sub s : string) :
  Str.contains sub s = true -> exists a b, first_occurrence sub s a b.
Proof.
  induction s as [|c s IH]; intros H.
  - apply contains_iff in H as [a [b E]]. destruct a; [|discriminate].
    exists "", b. split; [assumption | intros; simpl; lia].
  - simpl in H. destruct (Str.startswith sub (String c s)) eqn:P.
    + apply startswith_iff in P as [t E]. exists "", t.
      split; [assumption | intros; simpl; lia].
    + destruct (IH H) as [a [b [E Hmin]]]. exists (String c a), b. split.
      * simpl. now rewrite E.
      * intros a' b' E'. destruct a' as [|x a'].
        -- simpl in E'. assert (Str.startswith sub (String c s) = true)
             by (apply startswith_iff; exists b'; assumption). congruence.
        -- simpl in E' |- *. injection E' as _ E'. specialize (Hmin _ _ E'). lia.
Qed.

Lemma first_occurrence_unique (sub s a b a' b' : string) :
  first_occurrence sub s a b -> first_occurrence sub s a' b' -> a = a' /\ b = b'.
Proof.
  intros [E M] [E' M'].
  assert (L : String.length a = String.length a')
    by (specialize (M _ _ E'); specialize (M' _ _ E); lia).
  rewrite E in E'. clear E M M'.
  revert a' L E'. induction a as [|x a IH]; intros [|y a'] L E'; try discriminate.
  - simpl in E'. apply sapp_inv_head in E'. auto.
  - simpl in L, E'. injection L as L. injection E' as -> E'.
    destruct (IH _ L E') as [-> ->]. auto.
Qed.

Lemma match_lits_self (d : bool) (p s : string) :
  Re.match_here d (lits p) (p ++ s) = Some ("", s).
Proof.
  rewrite <- (List.app_nil_r (lits p)). now rewrite match_lits_app.
Qed.

(** Under [DOTALL] the lazy group stops at the first occurrence of what
    follows it. *)
Lemma lazy_first_occurrence (sub s a b : string) :
  first_occurrence sub s a b ->
  Re.match_here true (Re.LazyAny :: lits sub) s = Some (a, b).
Proof.
  revert s. induction a as [|c a IH]; intros s [E Hmin]; subst s.
  - rewrite match_here_lazy. simpl append. now rewrite match_lits_self.
  - rewrite match_here_lazy.
    destruct (Re.match_here true (lits sub) (String c a ++ sub ++ b))
      as [[cap rest]|] eqn:M.
    + apply match_lits_only in M as [_ E].
      specialize (Hmin "" rest E). simpl in Hmin. lia.
    + cbn [append Re.dot orb]. rewrite (IH (a ++ sub ++ b)); [reflexivity|].
      split; [reflexivity|]. intros a' b' E'.
      specialize (Hmin (String c a') b'). simpl in Hmin.
      rewrite E' in Hmin. specialize (Hmin eq_refl). lia.
Qed.

Lemma lazy_inv (d : bool) (sub s cap rest : string) :
  Re.match_here d (Re.LazyAny :: lits sub) s = Some (cap, rest) ->
  s = cap ++ sub ++ rest.
Proof.
  revert cap. induction s as [|c s IH]; intros cap H; rewrite match_here_lazy in H.
  - destruct (Re.match_here d (lits sub) "") as [[x y]|] eqn:M; [|discriminate].
    injection H as <- <-. now apply match_lits_only in M as [_ M].
  - destruct (Re.match_here d (lits sub) (String c s)) as [[x y]|] eqn:M.
    + injection H as <- <-. now apply match_lits_only in M as [_ M].
    + destruct (Re.dot d c); [|discriminate].
      destruct (Re.match_here d (Re.LazyAny :: lits sub) s) as [[x y]|] eqn:N;
        [|discriminate].
      injection H as <- <-. simpl. now rewrite (IH _ eq_refl).
Qed.

(** A match of the tag pattern is an opening marker, the captured text,
    a closing marker. *)
Lemma match_tag_inv (d : bool) (tag s cap rest : string) :
  Re.match_here d (tag_regex tag) s = Some (cap, rest) ->
  s = open_marker tag ++ cap ++ close_marker tag ++ rest.
Proof.
  intros H. apply match_lits_inv in H as [t [-> H]].
  now rewrite (lazy_inv _ _ _ _ _ H).
Qed.

Lemma match_tag_first (tag t cap rest : string) :
  first_occurrence (close_marker tag) t cap rest ->
  Re.match_here true (tag_regex tag) (open_marker tag ++ t) = Some (cap, rest).
Proof.
  intros H. unfold tag_regex. rewrite match_lits_app.
  now apply lazy_first_occurrence.
Qed.

Lemma match_tag_shorter (d : bool) (tag s cap rest : string) :
  Re.match_here d (tag_regex tag) s = Some (cap, rest) ->
  String.length rest < String.length s.
Proof.
  intros H. rewrite (match_tag_inv _ _ _ _ _ H), !slength_app.
  unfold open_marker. simpl. lia.
Qed.

(** *** The defining equations of the scan *)

Lemma findall_end (d : bool) (r : Re.regex) :
  Re.match_here d r "" = None -> Re.findall d r "" = [].
Proof. intros H. simp findall. rewrite H. reflexivity. Qed.

Lemma findall_skip (d : bool) (r : Re.regex) (c : ascii) (s : string) :
  Re.match_here d r (String c s) = None ->
  Re.findall d r (String c s) = Re.findall d r s.
Proof. intros H. simp findall. rewrite H. reflexivity. Qed.

Lemma findall_match (d : bool) (r : Re.regex) (s cap rest : string) :
  Re.match_here d r s = Some (cap, rest) ->
  String.length rest < String.length s ->
  Re.findall d r s = cap :: Re.findall d r rest.
Proof.
  intros H L. destruct s as [|c s]; [simpl in L; lia|].
  simp findall. rewrite H. simpl.
  destruct (lt_dec _ _) as [l|n]; [reflexivity | simpl in L; lia].
Qed.

(** No match starts where a marker is missing from the rest of the text. *)
Lemma findall_no_match (d : bool) (tag s : string) :
  Str.contains (open_marker tag) s = false \/ Str.contains (close_marker tag) s = false ->
  Re.findall d (tag_regex tag) s = [].
Proof.
  assert (N : forall t, Str.contains (open_marker tag) t = false \/
                        Str.contains (close_marker tag) t = false ->
                        Re.match_here d (tag_regex tag) t = None).
  { intros t H. destruct (Re.match_here d (tag_regex tag) t) as [[cap rest]|] eqn:M;
      [|reflexivity].
    apply match_tag_inv in M. subst t. destruct H as [H|H].
    - rewrite <- (sapp_nil_r (open_marker tag)) in H at 1.
      change (Str.contains (open_marker tag ++ "")
                ("" ++ open_marker tag ++ cap ++ close_marker tag ++ rest) = false) in H.
      rewrite sapp_nil_r in H. now rewrite contains_self in H.
    - rewrite <- sapp_assoc in H. now rewrite contains_self in H. }
  induction s as [|c s IH]; intros H.
  - apply findall_end, N, H.
  - rewrite findall_skip by (apply N, H). apply IH.
    simpl in H. destruct H as [H|H]; apply orb_false_iff in H as [_ H]; auto.
Qed.

End Scan.

(** ** Markers that cannot overlap *)

(** When the first character of [sub] occurs nowhere else in it, two copies
    of [sub] cannot overlap: after a text free of [sub], the next copy is
    the first. *)
Lemma first_occurrence_fresh (h : ascii) (tl a b : string) :
  Str.contains (String h "") tl = false ->
  Str.contains (String h tl) a = false ->
  first_occurrence (String h tl) (a ++ String h tl ++ b) a b.
Proof.
  intros Hh Ha. split; [reflexivity|]. intros a' b' E.
  destruct (sapp_eq_app _ _ _ _ E) as [[u [-> _]]|[u [-> E2]]].
  - rewrite slength_app. lia.
  - destruct u as [|x u]; [rewrite sapp_nil_r; lia|]. exfalso.
    destruct (sapp_eq_app _ _ _ _ E2) as [[v [Ev _]]|[v [Ev E3]]].
    + (* the earlier copy ends inside [a] *)
      rewrite Ev in Ha. rewrite contains_self in Ha. discriminate.
    + (* the earlier copy runs into the later one *)
      simpl in Ev. injection Ev as <- ->.
      destruct v as [|y v].
      * rewrite sapp_nil_r in Ha.
        rewrite <- (sapp_nil_r (String h u)) in Ha at 2.
        rewrite contains_self in Ha. discriminate.
      * simpl in E3. injection E3 as <- E3.
        pose proof (contains_self (String h "") u v) as C.
        change (String h "" ++ v) with (String h v) in C. congruence.
Qed.

Section Markers.

Variable tag : string.
(** ["<" not in tag]. *)
Hypothesis tag_no_lt : Str.contains "<" tag = false.

Lemma close_marker_fresh (a b : string) :
  Str.contains (close_marker tag) a = false ->
  first_occurrence (close_marker tag) (a ++ close_marker tag ++ b) a b.
Proof.
  intros H. apply (first_occurrence_fresh "<" ("/" ++ tag ++ ">")); [|exact H].
  change ("/" ++ tag ++ ">") with (String "/" (tag ++ ">")).
  simpl. rewrite contains_char_app, tag_no_lt. reflexivity.
Qed.

(** The text between [<] and the tag cannot be shifted by one. *)
Lemma shifted_absurd (t x y : string) (c : ascii) :
  c <> ">"%char -> t ++ ">" ++ x = String c (t ++ ">" ++ y) -> False.
Proof.
  revert c. induction t as [|e t IH]; intros c Hc E; simpl in E.
  - injection E as E _. congruence.
  - injection E as -> E. exact (IH _ Hc E).
Qed.

(** Prepending the opening marker creates no closing marker. *)
Lemma open_marker_adds_no_close (text : string) :
  Str.contains (close_marker tag) text = false ->
  Str.contains (close_marker tag) (open_marker tag ++ text) = false.
Proof.
  intros H. apply contains_false_iff. intros a b E.
  unfold open_marker in E.
  change ("<" ++ tag ++ ">") with (String "<" (tag ++ ">")) in E.
  destruct a as [|z a]; cbn [append] in E.
  - unfold close_marker in E. simpl in E. injection E as E.
    rewrite !sapp_assoc in E. eapply (shifted_absurd tag text b "/"%char);
      [discriminate | exact E].
  - injection E as _ E.
    assert (F : forall x, String "<" (String "/" ((tag ++ ">") ++ x))
                          = close_marker tag ++ x) by reflexivity.
    rewrite F in E.
    destruct (sapp_eq_app _ _ _ _ E) as [[u [-> E2]]|[u [E1 E2]]].
    + rewrite E2, contains_self in H. discriminate.
    + destruct u as [|y u].
      * cbn [append] in E2. rewrite <- E2 in H.
        change (Str.contains (close_marker tag) ("" ++ close_marker tag ++ b) = false) in H.
        rewrite contains_self in H. discriminate.
      * simpl in E2. injection E2 as <- _.
        assert (C : Str.contains "<" (tag ++ ">") = true)
          by (rewrite E1; apply (contains_self "<" a u)).
        rewrite contains_char_app, tag_no_lt in C. discriminate.
Qed.

End Markers.

(** ** [extract_tag_content]: the added markers *)

Section WithMarkers.

Variables text tag : string.

Lemma with_markers_both :
  Str.contains (open_marker tag) text = true ->
  Str.contains (close_marker tag) text = true ->
  with_markers text tag = text.
Proof.
  unfold with_markers. intros H1 H2. rewrite H1. cbn [negb]. now rewrite H2.
Qed.

Lemma with_markers_only_open :
  Str.contains (open_marker tag) text = true ->
  Str.contains (close_marker tag) text = false ->
  with_markers text tag = text ++ close_marker tag.
Proof.
  unfold with_markers. intros H1 H2. rewrite H1. cbn [negb]. now rewrite H2.
Qed.

Lemma with_markers_only_close :
  Str.contains (open_marker tag) text = false ->
  Str.contains (close_marker tag) text = true ->
  with_markers text tag = open_marker tag ++ text.
Proof.
  unfold with_markers. intros H1 H. rewrite H1. cbn [negb].
  now rewrite (contains_app_r _ (open_marker tag) _ H).
Qed.

Lemma with_markers_none :
  Str.contains "<" tag = false ->
  Str.contains (open_marker tag) text = false ->
  Str.contains (close_marker tag) text = false ->
  with_markers text tag = open_marker tag ++ text ++ close_marker tag.
Proof.
  unfold with_markers. intros L H1 H. rewrite H1. cbn [negb].
  rewrite (open_marker_adds_no_close tag L text H). cbn [negb].
  apply sapp_assoc.
Qed.

Lemma extract_literal :
  literal tag = true ->
  extract_tag_content text tag
  = Some (last_nonempty (Re.findall Re.DOTALL (tag_regex tag) (with_markers text tag))).
Proof.
  intros L. unfold extract_tag_content. now rewrite (compile_tag_pattern tag L).
Qed.

End WithMarkers.

Lemma last_or_none_app (xs : list string) (x : string) :
  Str.last_or_none (xs ++ [x])%list = Some x.
Proof.
  induction xs as [|y xs IH]; [reflexivity|].
  simpl. destruct (xs ++ [x])%list eqn:E; [|exact IH].
  destruct xs; discriminate.
Qed.

Lemma last_or_none_in (xs : list string) (x : string) :
  Str.last_or_none xs = Some x -> In x xs.
Proof.
  induction xs as [|y xs IH]; [discriminate|].
  simpl. destruct xs as [|z xs].
  - intros H. injection H as ->. now left.
  - intros H. right. apply IH, H.
Qed.

Lemma last_nonempty_single (x : string) :
  last_nonempty [x] = if Str.truthy x then Some x else None.
Proof. destruct x; reflexivity. Qed.

(** The scan of a text that starts with an opening marker and whose first
    closing marker is followed by no further pair. *)
Lemma findall_single (tag t cap rest : string) :
  first_occurrence (close_marker tag) t cap rest ->
  Str.contains (open_marker tag) rest = false \/
  Str.contains (close_marker tag) rest = false ->
  Re.findall Re.DOTALL (tag_regex tag) (open_marker tag ++ t) = [cap].
Proof.
  intros F N. pose proof (match_tag_first _ _ _ _ F) as M.
  unfold Re.DOTALL. rewrite (findall_match _ _ _ _ _ M (match_tag_shorter _ _ _ _ _ M)).
  now rewrite (findall_no_match _ _ _ N).
Qed.

(** ** [extract_tag_content]: results *)

(** C1.  When the text holds neither [<tag>] nor [</tag>], both markers are
    added around it and the whole text is the only match: the result is the
    text, or [None] for the empty text.  The tag is a name: no character
    special to [re], no [<]. *)
Theorem no_markers_whole_text (text tag : string) :
  literal tag = true ->
  Str.contains "<" tag = false ->
  Str.contains (open_marker tag) text = false ->
  Str.contains (close_marker tag) text = false ->
  extract_tag_content text tag = Some (if Str.truthy text then Some text else None).
Proof.
  intros L Lt Ho Hc.
  rewrite (extract_literal _ _ L), (with_markers_none _ _ Lt Ho Hc).
  rewrite (findall_single tag (text ++ close_marker tag) text "").
  - apply f_equal, last_nonempty_single.
  - rewrite <- (sapp_nil_r (close_marker tag)) at 2.
    apply (close_marker_fresh tag Lt), Hc.
  - left. reflexivity.
Qed.

Lemma no_markers_whole_text_witness :
  literal "foo" = true /\
  Str.contains "<" "foo" = false /\
  Str.contains (open_marker "foo") "no tags here" = false /\
  Str.contains (close_marker "foo") "no tags here" = false /\
  extract_tag_content "no tags here" "foo" = Some (Some "no tags here").
Proof.
  refine (conj eq_refl (conj eq_refl (conj eq_refl (conj eq_refl _)))).
  exact (no_markers_whole_text "no tags here" "foo" eq_refl eq_refl eq_refl eq_refl).
Defined.

(** The exclusion of [<] from the tag is needed: with the tag [></] the
    opening marker put before the text [</>] completes a closing marker,
    none is appended, and nothing matches. *)
Example lt_in_tag_no_wrapping :
  literal "></" = true /\
  Str.contains (open_marker "></") "</>" = false /\
  Str.contains (close_marker "></") "</>" = false /\
  with_markers "</>" "></" = "<></></>" /\
  extract_tag_content "</>" "></" = Some None.
Proof. repeat split. Qed.

(** A match of the pattern in a text needs both markers in it. *)
Lemma findall_in_contains (d : bool) (tag s m : string) :
  In m (Re.findall d (tag_regex tag) s) ->
  Str.contains (open_marker tag) s = true /\ Str.contains (close_marker tag) s = true.
Proof.
  intros H.
  destruct (Str.contains (open_marker tag) s) eqn:Ho.
  - destruct (Str.contains (close_marker tag) s) eqn:Hc; [auto|].
    rewrite (findall_no_match d tag s (or_intror Hc)) in H. contradiction.
  - rewrite (findall_no_match d tag s (or_introl Ho)) in H. contradiction.
Qed.

(** When the non-empty matches of the scan over the text are [ms] followed
    by [c], nothing is added to the text and the result is [c]. *)
Lemma last_match_wins (text tag : string) (r : Re.regex) (ms : list string) (c : string) :
  Re.compile (tag_pattern tag) = Some r ->
  filter Str.truthy (Re.findall Re.DOTALL r text) = (ms ++ [c])%list ->
  extract_tag_content text tag = Some (Some c).
Proof.
  intros C F. destruct (compile_tag_pattern_inv _ _ C) as [L ->].
  assert (I : In c (Re.findall Re.DOTALL (tag_regex tag) text)).
  { eapply proj1. apply filter_In. rewrite F. apply in_or_app. right. now left. }
  destruct (findall_in_contains _ _ _ _ I) as [Ho Hc].
  rewrite (extract_literal _ _ L), (with_markers_both _ _ Ho Hc).
  unfold last_nonempty. rewrite F. now rewrite last_or_none_app.
Qed.

(** C3.  Empty matches are dropped: the result is never the empty string,
    and it is [None] when every match of the pattern in the text (with its
    markers added) is empty. *)
Theorem empty_matches_discarded (text tag : string) (r : Re.regex) :
  Re.compile (tag_pattern tag) = Some r ->
  extract_tag_content text tag <> Some (Some "") /\
  ((forall m, In m (Re.findall Re.DOTALL r (with_markers text tag)) -> m = "") ->
   extract_tag_content text tag = Some None).
Proof.
  intros C. unfold extract_tag_content. rewrite C. cbv zeta. unfold last_nonempty.
  split.
  - intros H. injection H as H. apply last_or_none_in, filter_In in H as [_ H].
    discriminate.
  - intros H. f_equal.
    induction (Re.findall Re.DOTALL r (with_markers text tag)) as [|m l IH];
      [reflexivity|].
    simpl. rewrite (H m (or_introl eq_refl)). simpl.
    apply IH. intros x Hx. apply H. now right.
Qed.

Lemma empty_matches_discarded_witness :
  Re.compile (tag_pattern "foo") = Some (tag_regex "foo") /\
  (forall m, In m (Re.findall Re.DOTALL (tag_regex "foo") (with_markers "<foo></foo>" "foo"))
             -> m = "") /\
  extract_tag_content "<foo></foo>" "foo" = Some None.
Proof.
  assert (A : forall m, In m (Re.findall Re.DOTALL (tag_regex "foo")
                                (with_markers "<foo></foo>" "foo")) -> m = "").
  { intros m [H|[]]. now symmetry. }
  refine (conj eq_refl (conj A _)).
  exact (proj2 (empty_matches_discarded "<foo></foo>" "foo" (tag_regex "foo") eq_refl) A).
Defined.

(** C4.  With an opening but no closing marker in the text, a closing
    marker is appended to the text, and the matching runs over the text so
    extended. *)
Theorem closing_marker_appended (text tag : string) :
  Str.contains (open_marker tag) text = true ->
  Str.contains (close_marker tag) text = false ->
  with_markers text tag = text ++ close_marker tag /\
  extract_tag_content text tag
  = option_map (fun r => last_nonempty (Re.findall Re.DOTALL r (text ++ close_marker tag)))
      (Re.compile (tag_pattern tag)).
Proof.
  intros Ho Hc. pose proof (with_markers_only_open _ _ Ho Hc) as W.
  split; [exact W|].
  unfold extract_tag_content. rewrite W.
  destruct (Re.compile (tag_pattern tag)); reflexivity.
Qed.

Lemma closing_marker_appended_witness :
  Str.contains (open_marker "foo") "<foo>only-open" = true /\
  Str.contains (close_marker "foo") "<foo>only-open" = false /\
  with_markers "<foo>only-open" "foo" = "<foo>only-open</foo>" /\
  extract_tag_content "<foo>only-open" "foo" = Some (Some "only-open").
Proof.
  refine (conj eq_refl (conj eq_refl _)).
  exact (closing_marker_appended "<foo>only-open" "foo" eq_refl eq_refl).
Defined.

(** The scan starts at the first opening marker. *)
Lemma findall_from_first_open (d : bool) (tag s pre t : string) :
  first_occurrence (open_marker tag) s pre t ->
  Re.findall d (tag_regex tag) s = Re.findall d (tag_regex tag) (open_marker tag ++ t).
Proof.
  revert s. induction pre as [|c pre IH]; intros s [E M]; subst s; [reflexivity|].
  cbn [append]. rewrite findall_skip.
  - apply IH. split; [reflexivity|]. intros a b E.
    specialize (M (String c a) b). cbn [append] in M. rewrite E in M.
    specialize (M eq_refl). simpl in M. lia.
  - destruct (Re.match_here d (tag_regex tag) (String c (pre ++ open_marker tag ++ t)))
      as [[cap rest]|] eqn:H; [|reflexivity].
    apply match_tag_inv in H. specialize (M "" _ H). simpl in M. lia.
Qed.

(** X7.  With an opening marker, no closing marker, and a tag name without
    [<], the result is the text after the first opening marker, or [None]
    when nothing follows it. *)
Lemma only_open_body (text tag : string) :
  literal tag = true ->
  Str.contains "<" tag = false ->
  Str.contains (open_marker tag) text = true ->
  Str.contains (close_marker tag) text = false ->
  exists pre body,
    first_occurrence (open_marker tag) text pre body /\
    extract_tag_content text tag = Some (if Str.truthy body then Some body else None).
Proof.
  intros L Lt Ho Hc. destruct (first_occurrence_exists _ _ Ho) as [pre [body F]].
  exists pre, body. split; [exact F|].
  rewrite (extract_literal _ _ L), (with_markers_only_open _ _ Ho Hc).
  assert (Hb : Str.contains (close_marker tag) body = false).
  { destruct (Str.contains (close_marker tag) body) eqn:B; [|reflexivity].
    destruct F as [E _]. rewrite E in Hc.
    now rewrite (contains_app_r _ pre _ (contains_app_r _ (open_marker tag) _ B)) in Hc. }
  assert (F' : first_occurrence (open_marker tag) (text ++ close_marker tag)
                 pre (body ++ close_marker tag)).
  { destruct F as [E M]. split; [rewrite E; now rewrite !sapp_assoc|].
    intros a b E'. rewrite <- (sapp_assoc a) in E'.
    destruct (sapp_eq_app _ _ _ _ E') as [[u [Eu _]]|[u [Eu _]]].
    - apply (f_equal String.length) in Eu. rewrite E in Eu.
      rewrite !slength_app in Eu. lia.
    - apply M with (b := u). now rewrite Eu, sapp_assoc. }
  rewrite (findall_from_first_open _ _ _ _ _ F').
  rewrite (findall_single tag (body ++ close_marker tag) body "").
  - apply f_equal, last_nonempty_single.
  - rewrite <- (sapp_nil_r (close_marker tag)) at 2.
    apply (close_marker_fresh tag Lt), Hb.
  - left. reflexivity.
Qed.

(** *** Texts made of pairs *)

Lemma open_marker_fresh (tag gap b : string) :
  Str.contains "<" tag = false ->
  Str.contains (open_marker tag) gap = false ->
  first_occurrence (open_marker tag) (gap ++ open_marker tag ++ b) gap b.
Proof.
  intros Lt H. apply (first_occurrence_fresh "<" (tag ++ ">")); [|exact H].
  rewrite contains_char_app, Lt. reflexivity.
Qed.

(** The scan of a text made of pairs finds the contents, in order, when
    no gap holds an opening marker, no content a closing marker, and the
    tail lacks one of the markers. *)
Lemma findall_pairs (tag : string) (segs : list (string * string)) (tail : string) :
  Str.contains "<" tag = false ->
  Forall (fun seg => Str.contains (open_marker tag) (fst seg) = false /\
                     Str.contains (close_marker tag) (snd seg) = false) segs ->
  Str.contains (open_marker tag) tail = false \/
  Str.contains (close_marker tag) tail = false ->
  Re.findall Re.DOTALL (tag_regex tag) (pairs_text tag segs tail) = map snd segs.
Proof.
  intros Lt F T. induction segs as [|[gap content] segs IH]; cbn [pairs_text map snd].
  - apply findall_no_match, T.
  - inversion F as [|? ? [Hg Hc] F']; subst. simpl in Hg, Hc.
    rewrite (findall_from_first_open _ _ _ gap _ (open_marker_fresh _ _ _ Lt Hg)).
    pose proof (match_tag_first _ _ _ _
                  (close_marker_fresh tag Lt content (pairs_text tag segs tail) Hc)) as M.
    unfold Re.DOTALL.
    rewrite (findall_match _ _ _ _ _ M (match_tag_shorter _ _ _ _ _ M)).
    f_equal. apply IH, F'.
Qed.

(** X6.  On such a text with at least one pair, the result is the last
    content that is not empty; a content may hold opening markers, and an
    unclosed section in the tail is ignored. *)
Lemma extract_pairs (tag : string) (segs : list (string * string)) (tail : string) :
  literal tag = true ->
  Str.contains "<" tag = false ->
  Forall (fun seg => Str.contains (open_marker tag) (fst seg) = false /\
                     Str.contains (close_marker tag) (snd seg) = false) segs ->
  Str.contains (open_marker tag) tail = false \/
  Str.contains (close_marker tag) tail = false ->
  segs <> [] ->
  extract_tag_content (pairs_text tag segs tail) tag
  = Some (last_nonempty (map snd segs)).
Proof.
  intros L Lt F T N. rewrite (extract_literal _ _ L).
  rewrite with_markers_both.
  - now rewrite (findall_pairs _ _ _ Lt F T).
  - destruct segs as [|[gap content] segs]; [congruence|]. apply contains_self.
  - destruct segs as [|[gap content] segs]; [congruence|]. cbn [pairs_text].
    rewrite <- (sapp_assoc gap), <- (sapp_assoc (gap ++ open_marker tag)).
    apply contains_self.
Qed.

Lemma extract_pairs_witness :
  literal "foo" = true /\
  Str.contains "<" "foo" = false /\
  pairs_text "foo" [("say ", "x<foo>y"); ("", ""); (" then ", "last")] " <foo>cut"
  = "say <foo>x<foo>y</foo><foo></foo> then <foo>last</foo> <foo>cut" /\
  extract_tag_content "say <foo>x<foo>y</foo><foo></foo> then <foo>last</foo> <foo>cut" "foo"
  = Some (Some "last").
Proof.
  refine (conj eq_refl (conj eq_refl (conj eq_refl _))).
  apply (extract_pairs "foo" [("say ", "x<foo>y"); ("", ""); (" then ", "last")] " <foo>cut"
           eq_refl eq_refl).
  - repeat constructor.
  - now right.
  - discriminate.
Defined.

(** On a text made of pairs, nothing is added and the scan finds the
    contents. *)
Lemma pairs_text_matches (tag : string) (segs : list (string * string)) (tail : string) :
  Str.contains "<" tag = false ->
  Forall (fun seg => Str.contains (open_marker tag) (fst seg) = false /\
                     Str.contains (close_marker tag) (snd seg) = false) segs ->
  Str.contains (open_marker tag) tail = false \/
  Str.contains (close_marker tag) tail = false ->
  segs <> [] ->
  with_markers (pairs_text tag segs tail) tag = pairs_text tag segs tail /\
  Re.findall Re.DOTALL (tag_regex tag) (pairs_text tag segs tail) = map snd segs.
Proof.
  intros Lt F T N. split; [|exact (findall_pairs _ _ _ Lt F T)].
  destruct segs as [|[gap content] segs]; [congruence|].
  apply with_markers_both; cbn [pairs_text].
  - apply contains_self.
  - rewrite <- (sapp_assoc gap), <- (sapp_assoc (gap ++ open_marker tag)).
    apply contains_self.
Qed.

(** The last content that is not empty, when only empty ones follow it. *)
Lemma last_nonempty_then_empty (xs ys : list string) (c : string) :
  c <> "" -> Forall (fun y => y = "") ys ->
  last_nonempty (xs ++ c :: ys)%list = Some c.
Proof.
  intros Nc E. unfold last_nonempty. rewrite filter_app. simpl.
  assert (T : Str.truthy c = true) by (destruct c; [congruence | reflexivity]).
  rewrite T.
  assert (Z : filter Str.truthy ys = []).
  { induction E as [|y ys -> _ IH]; [reflexivity | exact IH]. }
  rewrite Z. apply last_or_none_app.
Qed.

(** C2.  A text of complete pairs: before each opening marker a gap that
    holds no opening marker, between the markers of a pair a content that
    holds no closing marker (it may span lines), and after the last pair a
    tail that lacks one of the markers.  When [c] is the content of the
    last pair whose content is not empty, the result is [c], however many
    pairs come before it. *)
Theorem last_pair_wins (tag : string) (before after : list (string * string))
  (gap c tail : string) :
  literal tag = true ->
  Str.contains "<" tag = false ->
  Forall (fun seg => Str.contains (open_marker tag) (fst seg) = false /\
                     Str.contains (close_marker tag) (snd seg) = false)
    (before ++ (gap, c) :: after)%list ->
  Str.contains (open_marker tag) tail = false \/
  Str.contains (close_marker tag) tail = false ->
  c <> "" ->
  Forall (fun seg => snd seg = "") after ->
  extract_tag_content (pairs_text tag (before ++ (gap, c) :: after)%list tail) tag
  = Some (Some c).
Proof.
  intros L Lt F T Nc E.
  assert (N : (before ++ (gap, c) :: after)%list <> []) by (destruct before; discriminate).
  destruct (pairs_text_matches _ _ _ Lt F T N) as [W M].
  rewrite (extract_literal _ _ L), W, M, map_app. cbn [map snd].
  apply f_equal, last_nonempty_then_empty; [exact Nc|].
  apply Forall_map, E.
Qed.

Lemma last_pair_wins_witness :
  literal "foo" = true /\
  Str.contains "<" "foo" = false /\
  "sec" ++ Pydantic.newline ++ "ond" <> "" /\
  pairs_text "foo" ([("", "first")] ++ ("", "sec" ++ Pydantic.newline ++ "ond") :: [(" ", "")]) ""
  = "<foo>first</foo><foo>sec" ++ Pydantic.newline ++ "ond</foo> <foo></foo>" /\
  extract_tag_content
    ("<foo>first</foo><foo>sec" ++ Pydantic.newline ++ "ond</foo> <foo></foo>") "foo"
  = Some (Some ("sec" ++ Pydantic.newline ++ "ond")) /\
  extract_tag_content "<foo>first</foo><foo>second</foo>" "foo" = Some (Some "second").
Proof.
  assert (N1 : "sec" ++ Pydantic.newline ++ "ond" <> "") by discriminate.
  assert (N2 : "second" <> "") by discriminate.
  refine (conj eq_refl (conj eq_refl (conj N1 (conj eq_refl (conj _ _))))).
  - apply (last_pair_wins "foo" [("", "first")] [(" ", "")] ""
             ("sec" ++ Pydantic.newline ++ "ond") "" eq_refl eq_refl).
    + repeat constructor.
    + now left.
    + exact N1.
    + repeat constructor.
  - apply (last_pair_wins "foo" [("", "first")] [] "" "second" "" eq_refl eq_refl).
    + repeat constructor.
    + now left.
    + exact N2.
    + constructor.
Defined.

(** C9.  When the text holds a closing marker none is added, so an opening
    marker that is never closed starts no match: for a pair with the
    non-empty content [a] followed by an unclosed section [<tag>b], the
    result is [a]. *)
Theorem unclosed_section_ignored (tag a b : string) :
  (forall text,
      Str.contains (close_marker tag) text = true ->
      with_markers text tag
      = if Str.contains (open_marker tag) text then text else open_marker tag ++ text) /\
  (literal tag = true ->
   Str.contains "<" tag = false ->
   a <> "" ->
   Str.contains (close_marker tag) a = false ->
   Str.contains (close_marker tag) b = false ->
   extract_tag_content
     (open_marker tag ++ a ++ close_marker tag ++ open_marker tag ++ b) tag
   = Some (Some a)).
Proof.
  split.
  - intros text Hc. destruct (Str.contains (open_marker tag) text) eqn:Ho.
    + now apply with_markers_both.
    + now apply with_markers_only_close.
  - intros L Lt Ha Hca Hcb.
    rewrite (extract_literal _ _ L), with_markers_both.
    + rewrite (findall_single tag _ a (open_marker tag ++ b)).
      * rewrite last_nonempty_single. destruct a; [congruence | reflexivity].
      * apply (close_marker_fresh tag Lt), Hca.
      * right. apply (open_marker_adds_no_close tag Lt), Hcb.
    + apply (contains_self (open_marker tag) "").
    + rewrite <- sapp_assoc. apply contains_self.
Qed.

Lemma unclosed_section_ignored_witness :
  literal "foo" = true /\
  Str.contains "<" "foo" = false /\
  "a" <> "" /\
  Str.contains (close_marker "foo") "a" = false /\
  Str.contains (close_marker "foo") "b" = false /\
  with_markers "<foo>a</foo><foo>b" "foo" = "<foo>a</foo><foo>b" /\
  extract_tag_content "<foo>a</foo><foo>b" "foo" = Some (Some "a").
Proof.
  assert (N : "a" <> "") by discriminate.
  refine (conj eq_refl (conj eq_refl (conj N (conj eq_refl (conj eq_refl _))))).
  split.
  - exact (proj1 (unclosed_section_ignored "foo" "a" "b") "<foo>a</foo><foo>b" eq_refl).
  - exact (proj2 (unclosed_section_ignored "foo" "a" "b") eq_refl eq_refl N eq_refl eq_refl).
Defined.

(** C10.  With a closing but no opening marker in the text, only the
    opening marker is added, in front: the result is the text before the
    first closing marker, or [None] when that text is empty; what follows
    the closing marker is dropped. *)
Theorem prefix_before_first_close (text tag : string) :
  literal tag = true ->
  Str.contains (open_marker tag) text = false ->
  Str.contains (close_marker tag) text = true ->
  with_markers text tag = open_marker tag ++ text /\
  exists pre post,
    first_occurrence (close_marker tag) text pre post /\
    extract_tag_content text tag = Some (if Str.truthy pre then Some pre else None).
Proof.
  intros L Ho Hc. pose proof (with_markers_only_close _ _ Ho Hc) as W.
  split; [exact W|].
  destruct (first_occurrence_exists _ _ Hc) as [pre [post F]].
  exists pre, post. split; [exact F|].
  rewrite (extract_literal _ _ L), W.
  rewrite (findall_single tag text pre post F).
  - apply f_equal, last_nonempty_single.
  - left. destruct (Str.contains (open_marker tag) post) eqn:B; [|reflexivity].
    destruct F as [E _]. rewrite E in Ho.
    now rewrite (contains_app_r _ pre _ (contains_app_r _ (close_marker tag) _ B)) in Ho.
Qed.

Lemma prefix_before_first_close_witness :
  literal "foo" = true /\
  Str.contains (open_marker "foo") "x</foo>y" = false /\
  Str.contains (close_marker "foo") "x</foo>y" = true /\
  first_occurrence (close_marker "foo") "x</foo>y" "x" "y" /\
  extract_tag_content "x</foo>y" "foo" = Some (Some "x").
Proof.
  destruct (prefix_before_first_close "x</foo>y" "foo" eq_refl eq_refl eq_refl)
    as [_ [pre [post [F E]]]].
  assert (G : first_occurrence (close_marker "foo") "x</foo>y" "x" "y").
  { split; [reflexivity|]. intros [|c a] b H; [discriminate | simpl; lia]. }
  destruct (first_occurrence_unique _ _ _ _ _ _ F G) as [-> ->].
  exact (conj eq_refl (conj eq_refl (conj eq_refl (conj G E)))).
Defined.

(** ** The validator decides conformance *)

Section Validation.
Import Json Pydantic.

Lemma cons_result_inr {A : Type} (r : result A) (rs : result (list A)) (l : list A) :
  cons_result r rs = inr l <-> exists a l', r = inr a /\ rs = inr l' /\ l = a :: l'.
Proof.
  destruct r as [e|a], rs as [e'|l']; simpl; split;
    try discriminate; try (intros [a0 [l0 [H1 [H2 _]]]]; discriminate).
  - intros H. injection H as <-. exists a, l'. auto.
  - intros [a0 [l0 [H1 [H2 ->]]]]. injection H1 as ->. injection H2 as ->. reflexivity.
Qed.

Lemma validate_items_decides f P Q :
  decides f P Q ->
  forall items loc i,
    (Forall P items -> exists vs, validate_items f loc i items = inr vs) /\
    (forall vs, validate_items f loc i items = inr vs -> Forall P items /\ Forall Q vs).
Proof.
  intros D. induction items as [|x xs IH]; intros loc i; simpl.
  - split; [eauto|]. intros vs H. injection H as <-. auto.
  - destruct (D (loc ++ [index i])%list x) as [D1 D2].
    destruct (IH loc (S i)) as [I1 I2]. split.
    + intros H. inversion H as [|? ? Hx Hxs]; subst.
      destruct (D1 Hx) as [v ->]. destruct (I1 Hxs) as [vs ->]. simpl. eauto.
    + intros vs H. apply cons_result_inr in H as [a [l' [Ha [Hl ->]]]].
      destruct (D2 _ Ha). destruct (I2 _ Hl). auto.
Qed.

Lemma validate_fields_decides f (P : ftype -> value -> Prop) (Q : ftype -> pyvalue -> Prop)
  (members : list (string * value)) (loc : list string) :
  forall fields,
    Forall (fun fld => decides (f (snd (snd fld))) (P (snd (snd fld))) (Q (snd (snd fld))))
      fields ->
    (fields_conform P members fields ->
     exists attrs, validate_fields f loc members fields = inr attrs) /\
    (forall attrs, validate_fields f loc members fields = inr attrs ->
                   fields_conform P members fields /\ attrs_typed Q fields attrs).
Proof.
  induction fields as [|[fname [required ty]] rest IH]; intros D; simpl.
  - split; [eauto|]. intros attrs H. injection H as <-. simpl. auto.
  - inversion D as [|? ? Dty Drest]; subst. simpl in Dty.
    destruct (IH Drest) as [I1 I2]. split.
    + intros [Hf Hr]. destruct (I1 Hr) as [attrs ->].
      destruct (lookup fname members) as [jv|].
      * destruct (proj1 (Dty (loc ++ [fname])%list jv) Hf) as [v ->]. simpl. eauto.
      * subst required. simpl. eauto.
    + intros attrs H. apply cons_result_inr in H as [[k v] [l' [Ha [Hl ->]]]].
      destruct (I2 _ Hl) as [Hc Ht].
      destruct (lookup fname members) as [jv|].
      * destruct (f ty (loc ++ [fname])%list jv) as [e|v'] eqn:E; [discriminate|].
        injection Ha as <- <-.
        destruct (proj2 (Dty _ _) _ E). simpl. auto.
      * destruct required; [discriminate|]. injection Ha as <- <-. simpl. auto 6.
Qed.

(** The validator accepts exactly the conforming documents, and what it
    returns has the type asked for. *)
Theorem validate_decides (t : ftype) :
  decides (validate t) (conforms t) (has_type t).
Proof.
  induction t as [| | | |elem IH|name fields IH] using ftype_nested_ind;
    intros loc j; simpl.
  - split.
    + intros [z ->]. eauto.
    + intros v H. destruct j as [| |[z|]| | |]; try discriminate.
      injection H as <-. eauto.
  - split.
    + intros [[z|m e] ->]; eauto.
    + intros v H. destruct j as [| |[z|m e]| | |]; try discriminate;
        injection H as <-; eauto.
  - split.
    + intros [s ->]. eauto.
    + intros v H. destruct j; try discriminate. injection H as <-. eauto.
  - split.
    + intros [b ->]. eauto.
    + intros v H. destruct j; try discriminate. injection H as <-. eauto.
  - split.
    + intros [items [-> H]].
      destruct (proj1 (validate_items_decides _ _ _ IH items loc 0) H) as [vs ->]. eauto.
    + intros v H. destruct j; try discriminate.
      destruct (validate_items (validate elem) loc 0 items) as [e|vs] eqn:E;
        [discriminate|].
      injection H as <-.
      destruct (proj2 (validate_items_decides _ _ _ IH items loc 0) _ E).
      split; eexists; eauto.
  - split.
    + intros [members [-> H]].
      destruct (proj1 (validate_fields_decides validate conforms has_type members loc
                         fields IH) H) as [attrs ->]. eauto.
    + intros v H. destruct j; try discriminate.
      destruct (validate_fields validate loc members fields) as [e|attrs] eqn:E;
        [discriminate|].
      injection H as <-.
      destruct (proj2 (validate_fields_decides validate conforms has_type members loc
                         fields IH) _ E).
      split; eexists; eauto.
Qed.

End Validation.

(** ** [deserialize] *)

Section Deserialize.
Import Json Pydantic.

(** What a run of [deserialize] does, by the outcome of the validation. *)
Lemma deserialize_run {I : Type} (value : string) (object_type : BaseModel I)
  (out : Py.stdout) :
  deserialize value object_type out =
  match model_validate_json object_type value with
  | inl err => (Py.Raise err, out ++ ("Validation error: " ++ str err) ++ newline)
  | inr obj => (Py.Return obj, out)
  end.
Proof.
  unfold deserialize, Py.bind, Py.try_except, Py.call.
  destruct (model_validate_json object_type value); reflexivity.
Qed.

Lemma schema_validate_json_valid (s : schema) (value : string) :
  (exists obj, schema_validate_json s value = inr obj) <->
  (exists j, loads value = Some j /\ conforms (model_type_of s) j).
Proof.
  unfold schema_validate_json. destruct (loads value) as [j|].
  - destruct (validate_decides (model_type_of s) [] j) as [D1 D2]. split.
    + intros [obj H].
      destruct (validate (model_type_of s) [] j) as [e|v] eqn:E; [discriminate|].
      exists j. split; [reflexivity | apply (D2 v eq_refl)].
    + intros [j' [E C]]. injection E as <-. destruct (D1 C) as [v ->]. eauto.
  - split; [intros [obj H]; discriminate | intros [j [H _]]; discriminate].
Qed.

(** A text is valid for a schema or invalid for it, never both. *)
Lemma valid_or_invalid (s : schema) (value : string) :
  (valid_for s value /\ ~ invalid_for s value) \/
  (invalid_for s value /\ ~ valid_for s value).
Proof.
  unfold valid_for, invalid_for. destruct (loads value) as [j|].
  - destruct (validate (model_type_of s) [] j) as [e|v] eqn:E.
    + right. assert (N : ~ conforms (model_type_of s) j).
      { intros C. destruct (proj1 (validate_decides _ [] j) C) as [v' H]. congruence. }
      split; [right; eauto|]. intros [j' [H C]]. injection H as <-. contradiction.
    + left. pose proof (proj1 (proj2 (validate_decides _ [] j) v E)) as C.
      split; [eauto|]. intros [H|[j' [H N]]]; [discriminate|].
      injection H as <-. contradiction.
  - right. split; [now left|]. intros [j [H _]]. discriminate.
Qed.

End Deserialize.

(** C5.  [deserialize] raises a [ValidationError] exactly when the text is
    not valid JSON or its document fails validation against the schema,
    and returns an object exactly when the text is a conforming document. *)
Theorem deserialize_fails_iff_invalid (s : Pydantic.schema) (value : string)
  (out : Py.stdout) :
  ((exists err, fst (deserialize value (model_of s) out) = Py.Raise err)
   <-> invalid_for s value) /\
  ((exists obj, fst (deserialize value (model_of s) out) = Py.Return obj)
   <-> valid_for s value).
Proof.
  rewrite deserialize_run.
  pose proof (schema_validate_json_valid s value) as V. fold (valid_for s value) in V.
  pose proof (valid_or_invalid s value) as D.
  simpl. destruct (Pydantic.schema_validate_json s value) as [err|obj]; simpl; split; split.
  - intros _. destruct D as [[D _]|[D _]]; [|exact D].
    apply V in D as [obj D]. discriminate.
  - eauto.
  - intros [obj H]. discriminate.
  - intros H. apply V in H as [obj H]. discriminate.
  - intros [err H]. discriminate.
  - intros H. destruct D as [[_ D]|[_ D]]; [contradiction|].
    exfalso. apply D, V. eauto.
  - intros _. apply V. eauto.
  - eauto.
Qed.

Lemma deserialize_fails_iff_invalid_witness :
  (forall s out, invalid_for s "not json" /\
                 exists err, fst (deserialize "not json" (model_of s) out) = Py.Raise err) /\
  (forall name ty out,
      let s := {| Pydantic.model_name := name;
                  Pydantic.model_fields := [("a", (true, ty))] |} in
      invalid_for s "{}" /\
      exists err, fst (deserialize "{}" (model_of s) out) = Py.Raise err).
Proof.
  split.
  - intros s out.
    assert (N : invalid_for s "not json") by (left; reflexivity).
    split; [exact N|].
    exact (proj2 (proj1 (deserialize_fails_iff_invalid s "not json" out)) N).
  - intros name ty out s.
    assert (N : invalid_for s "{}").
    { right. exists (Json.JObject []). split; [reflexivity|]. simpl.
      intros [members [E [C _]]]. injection E as <-. discriminate. }
    split; [exact N|].
    exact (proj2 (proj1 (deserialize_fails_iff_invalid s "{}" out)) N).
Defined.

(** C6.  When [deserialize] fails, the error is the one the validation
    raised, unchanged, and the line [Validation error: <error>] has been
    printed; when it returns, nothing has been printed. *)
Theorem error_logged_and_reraised {I : Type} (value : string)
  (object_type : BaseModel I) (out : Py.stdout) :
  (forall err,
      fst (deserialize value object_type out) = Py.Raise err ->
      model_validate_json object_type value = inl err /\
      snd (deserialize value object_type out)
      = out ++ ("Validation error: " ++ Pydantic.str err) ++ Pydantic.newline) /\
  (forall obj,
      fst (deserialize value object_type out) = Py.Return obj ->
      model_validate_json object_type value = inr obj /\
      snd (deserialize value object_type out) = out).
Proof.
  rewrite deserialize_run.
  destruct (model_validate_json object_type value) as [e|o]; simpl; split;
    intros x H; try discriminate; injection H as <-; auto.
Qed.

Lemma error_logged_and_reraised_witness :
  let err := {| Pydantic.title := "A";
                Pydantic.errors := [{| Pydantic.loc := ["a"]; Pydantic.type := Pydantic.missing |}] |} in
  fst (deserialize "{}" (model_of model_a) "") = Py.Raise err /\
  snd (deserialize "{}" (model_of model_a) "")
  = "Validation error: 1 validation error for A" ++ Pydantic.newline ++ "a"
    ++ Pydantic.newline ++ "  [type=missing]" ++ Pydantic.newline.
Proof.
  intros err. split; [reflexivity|].
  exact (proj2 (proj1 (error_logged_and_reraised "{}" (model_of model_a) "") err eq_refl)).
Defined.

(** C7.  For a JSON document that conforms to the schema, [deserialize]
    returns an object of the schema's type, one attribute per field, and
    prints nothing. *)
Theorem deserialize_returns_populated (s : Pydantic.schema) (value : string)
  (j : Json.value) (out : Py.stdout) :
  Json.loads value = Some j ->
  Pydantic.conforms (Pydantic.model_type_of s) j ->
  exists obj,
    deserialize value (model_of s) out = (Py.Return obj, out) /\
    Pydantic.has_type (Pydantic.model_type_of s) obj.
Proof.
  intros L C. rewrite deserialize_run. simpl. unfold Pydantic.schema_validate_json.
  rewrite L.
  destruct (validate_decides (Pydantic.model_type_of s) [] j) as [D1 D2].
  destruct (D1 C) as [v E]. rewrite E. exists v. split; [reflexivity|].
  apply (D2 v E).
Qed.

Lemma deserialize_returns_populated_witness :
  exists attrs,
    deserialize json_a_1 (model_of model_a) "" = (Py.Return (Pydantic.VModel "A" attrs), "") /\
    Pydantic.getattr attrs "a" = Some (Pydantic.VInt 1).
Proof.
  assert (L : Json.loads json_a_1
              = Some (Json.JObject [("a", Json.JNumber (Json.NInt 1))])) by reflexivity.
  assert (C : Pydantic.conforms (Pydantic.model_type_of model_a)
                (Json.JObject [("a", Json.JNumber (Json.NInt 1))])).
  { simpl. eexists. split; [reflexivity|]. simpl. eauto. }
  destruct (deserialize_returns_populated model_a json_a_1 _ "" L C) as [obj [E _]].
  exists [("a", Pydantic.VInt 1)]. split; [|reflexivity].
  rewrite E. f_equal. f_equal.
  assert (R : deserialize json_a_1 (model_of model_a) ""
              = (Py.Return (Pydantic.VModel "A" [("a", Pydantic.VInt 1)]), "")) by reflexivity.
  rewrite R in E. now injection E.
Defined.

(** The example of the docstring. *)
Example docstring_example : extract_tag_content "<foo>bar</foo>" "foo" = Some (Some "bar").
Proof. reflexivity. Qed.

(** * Further properties of [extract_tag_content] *)

(** ** What a match is *)

Lemma contains_refl (s : string) : Str.contains s s = true.
Proof. apply (contains_iff s s). exists "", "". now rewrite sapp_nil_r. Qed.

Lemma contains_app_l (sub a b : string) :
  Str.contains sub a = true -> Str.contains sub (a ++ b) = true.
Proof.
  rewrite !contains_iff. intros [x [y ->]]. exists x, (y ++ b).
  now rewrite !sapp_assoc.
Qed.

(** The lazy group stops at the first occurrence of what follows it,
    whatever the flag. *)
Lemma lazy_stops_first (d : bool) (sub s cap rest : string) :
  Re.match_here d (Re.LazyAny :: lits sub) s = Some (cap, rest) ->
  first_occurrence sub s cap rest.
Proof.
  revert cap. induction s as [|c s IH]; intros cap H.
  - pose proof (lazy_inv _ _ _ _ _ H) as E. destruct cap; [|discriminate].
    split; [exact E | intros; simpl; lia].
  - rewrite match_here_lazy in H.
    destruct (Re.match_here d (lits sub) (String c s)) as [[x y]|] eqn:M.
    + injection H as <- <-. apply match_lits_only in M as [_ M].
      split; [exact M | intros; simpl; lia].
    + destruct (Re.dot d c); [|discriminate].
      destruct (Re.match_here d (Re.LazyAny :: lits sub) s) as [[x y]|] eqn:N;
        [|discriminate].
      injection H as <- <-. destruct (IH _ eq_refl) as [E Hmin]. split.
      * simpl. now rewrite <- E.
      * intros a b E'. destruct a as [|z a].
        -- simpl in E'. rewrite E' in M. rewrite match_lits_self in M. discriminate.
        -- simpl in E' |- *. injection E' as _ E'. specialize (Hmin _ _ E'). lia.
Qed.

(** Every match the scan returns was captured by a match of the pattern
    at some position of the text. *)
Lemma findall_in_inv (d : bool) (tag c : string) (n : nat) :
  forall s, String.length s <= n ->
    In c (Re.findall d (tag_regex tag) s) ->
    exists a t rest, s = a ++ t /\ Re.match_here d (tag_regex tag) t = Some (c, rest).
Proof.
  induction n as [|n IH]; intros s Hn Hin.
  - destruct s; [|simpl in Hn; lia].
    destruct (Re.match_here d (tag_regex tag) "") as [[cap rest]|] eqn:M.
    + apply match_tag_shorter in M. simpl in M. lia.
    + rewrite (findall_end _ _ M) in Hin. contradiction.
  - destruct (Re.match_here d (tag_regex tag) s) as [[cap rest]|] eqn:M.
    + pose proof (match_tag_shorter _ _ _ _ _ M) as L.
      rewrite (findall_match _ _ _ _ _ M L) in Hin. destruct Hin as [<-|Hin].
      * exists "", s, rest. auto.
      * destruct (IH rest ltac:(lia) Hin) as [a [t [rest' [E M']]]].
        pose proof (match_tag_inv _ _ _ _ _ M) as Es.
        exists (open_marker tag ++ cap ++ close_marker tag ++ a), t, rest'.
        split; [|exact M']. rewrite Es, E. now rewrite !sapp_assoc.
    + destruct s as [|ch s].
      * rewrite (findall_end _ _ M) in Hin. contradiction.
      * rewrite (findall_skip _ _ _ _ M) in Hin. simpl in Hn.
        destruct (IH s ltac:(lia) Hin) as [a [t [rest [E M']]]].
        exists (String ch a), t, rest. split; [simpl; now rewrite E | exact M'].
Qed.

(** A match sits in the text between an opening marker and the first
    closing marker after it. *)
Lemma findall_in_occurrence (d : bool) (tag c s : string) :
  In c (Re.findall d (tag_regex tag) s) ->
  exists a rest,
    s = a ++ open_marker tag ++ c ++ close_marker tag ++ rest /\
    first_occurrence (close_marker tag) (c ++ close_marker tag ++ rest) c rest.
Proof.
  intros H. destruct (findall_in_inv d tag c _ s (le_n _) H) as [a [t [rest [E M]]]].
  exists a, rest. unfold tag_regex in M.
  apply match_lits_inv in M as [t' [Et M]]. apply lazy_stops_first in M.
  destruct M as [Et' Hmin]. subst. split; [reflexivity|]. split; [reflexivity | exact Hmin].
Qed.






(** ** Properties of the result *)







(** X4.  After lines 38-41 the text holds both markers, whatever the tag;
    adding the markers again changes nothing, and so the function gives
    the same result on a text and on the text with its markers added. *)
Theorem markers_added_once (text tag : string) :
  Str.contains (open_marker tag) (with_markers text tag) = true /\
  Str.contains (close_marker tag) (with_markers text tag) = true /\
  with_markers (with_markers text tag) tag = with_markers text tag /\
  extract_tag_content (with_markers text tag) tag = extract_tag_content text tag.
Proof.
  assert (B : Str.contains (open_marker tag) (with_markers text tag) = true /\
              Str.contains (close_marker tag) (with_markers text tag) = true).
  { unfold with_markers.
    destruct (Str.contains (open_marker tag) text) eqn:Ho; cbn [negb].
    - destruct (Str.contains (close_marker tag) text) eqn:Hc; cbn [negb].
      + auto.
      + split; [now apply contains_app_l | apply contains_app_r, contains_refl].
    - assert (O : Str.contains (open_marker tag) (open_marker tag ++ text) = true)
        by apply contains_app_l, contains_refl.
      destruct (Str.contains (close_marker tag) (open_marker tag ++ text)) eqn:Hc;
        cbn [negb].
      + auto.
      + split; [now apply contains_app_l | apply contains_app_r, contains_refl]. }
  destruct B as [Bo Bc]. pose proof (with_markers_both _ _ Bo Bc) as I.
  repeat split; try assumption.
  unfold extract_tag_content. now rewrite I.
Qed.

(** X5.  When the text holds both markers but no opening marker is followed
    by a closing marker, nothing is added and nothing matches: the result
    is [None], whatever stands in the text. *)
Theorem no_close_after_open_none (text tag : string) :
  literal tag = true ->
  Str.contains (open_marker tag) text = true ->
  Str.contains (close_marker tag) text = true ->
  (forall x y, text = x ++ open_marker tag ++ y ->
               Str.contains (close_marker tag) y = false) ->
  with_markers text tag = text /\ extract_tag_content text tag = Some None.
Proof.
  intros L Ho Hc N. pose proof (with_markers_both _ _ Ho Hc) as W.
  split; [exact W|]. rewrite (extract_literal _ _ L), W.
  destruct (Re.findall Re.DOTALL (tag_regex tag) text) as [|m l] eqn:F; [reflexivity|].
  assert (Hin : In m (Re.findall Re.DOTALL (tag_regex tag) text))
    by (rewrite F; now left).
  destruct (findall_in_occurrence _ _ _ _ Hin) as [a [rest [E _]]].
  specialize (N _ _ E). rewrite contains_self in N. discriminate.
Qed.

Lemma no_close_after_open_none_witness :
  literal "foo" = true /\
  Str.contains (open_marker "foo") "</foo>x<foo>y" = true /\
  Str.contains (close_marker "foo") "</foo>x<foo>y" = true /\
  extract_tag_content "</foo>x<foo>y" "foo" = Some None.
Proof.
  refine (conj eq_refl (conj eq_refl (conj eq_refl _))).
  apply (no_close_after_open_none "</foo>x<foo>y" "foo" eq_refl eq_refl eq_refl).
  intros x y E. unfold open_marker in E.
  repeat (destruct x as [|? x]; simpl in E;
          [first [discriminate E | injection E as <-; reflexivity]
          | first [discriminate E | injection E as _ E]]).
Defined.



(** X9.  For a tag without a character special to [re], what stands
    before the first opening marker is ignored, when a closing marker
    follows that opening marker. *)
Theorem text_before_first_open_ignored (text tag pre rest : string) :
  literal tag = true ->
  first_occurrence (open_marker tag) text pre rest ->
  Str.contains (close_marker tag) (open_marker tag ++ rest) = true ->
  extract_tag_content text tag = extract_tag_content (open_marker tag ++ rest) tag.
Proof.
  intros L F Hc. pose proof F as [E _].
  assert (W1 : with_markers text tag = text).
  { apply with_markers_both; rewrite E.
    - apply contains_self.
    - now apply contains_app_r. }
  assert (W2 : with_markers (open_marker tag ++ rest) tag = open_marker tag ++ rest).
  { apply with_markers_both; [apply contains_app_l, contains_refl | exact Hc]. }
  rewrite !(extract_literal _ _ L), W1, W2.
  now rewrite (findall_from_first_open _ _ _ _ _ F).
Qed.

Lemma text_before_first_open_ignored_witness :
  literal "foo" = true /\
  first_occurrence (open_marker "foo") "hi</foo> <foo>a</foo>" "hi</foo> " "a</foo>" /\
  Str.contains (close_marker "foo") (open_marker "foo" ++ "a</foo>") = true /\
  extract_tag_content "hi</foo> <foo>a</foo>" "foo" = extract_tag_content "<foo>a</foo>" "foo".
Proof.
  assert (F : first_occurrence (open_marker "foo") "hi</foo> <foo>a</foo>"
                "hi</foo> " "a</foo>").
  { split; [reflexivity|]. unfold open_marker. no_earlier_copy. }
  refine (conj eq_refl (conj F (conj eq_refl _))).
  exact (text_before_first_open_ignored "hi</foo> <foo>a</foo>" "foo" _ _ eq_refl F eq_refl).
Defined.

Lemma only_open_body_witness :
  literal "foo" = true /\
  Str.contains "<" "foo" = false /\
  Str.contains (open_marker "foo") "Sure. <foo>the answer is" = true /\
  Str.contains (close_marker "foo") "Sure. <foo>the answer is" = false /\
  extract_tag_content "Sure. <foo>the answer is" "foo" = Some (Some "the answer is").
Proof.
  refine (conj eq_refl (conj eq_refl (conj eq_refl (conj eq_refl _)))).
  destruct (only_open_body "Sure. <foo>the answer is" "foo" eq_refl eq_refl eq_refl eq_refl)
    as [pre [body [F E]]].
  assert (G : first_occurrence (open_marker "foo") "Sure. <foo>the answer is"
                "Sure. " "the answer is").
  { split; [reflexivity|]. unfold open_marker. no_earlier_copy. }
  destruct (first_occurrence_unique _ _ _ _ _ _ F G) as [-> ->]. exact E.
Defined.
